(** * pdftotxt: the extraction routine of [app.py] and its callers

    A shallow embedding of [extract_text_from_pdf], [to_txt_filename] and of
    the conversion run of [app.py] (the loop over the uploaded files, the
    separator removal and the zip block), followed by the properties of the
    specification that concern them.

    Conventions of the embedding.
    - A Python [str] is a list of Unicode code points ([N]); [bytes] is a
      list of [byte].  String literals of the source are written as Rocq
      strings and decoded from UTF-8 by [lit].
    - [str.strip] and the classes [\s] and [\d] of [re] follow CPython:
      [Py_UNICODE_ISSPACE] and [Py_UNICODE_ISDECIMAL].
    - The PDF library is not part of the repository.  An opened document is
      a record with the attributes the code touches ([is_encrypted],
      [decrypt], [pages]); [pdfplumber.open] itself is a parameter of the
      development and may raise any exception.  [decrypt] and
      [extract_text] return their value.  Every call into the library is
      recorded in a trace.
    - The module-level logger writes to [log_stream]; a log record is kept
      as its level and message (the time stamp of the formatter is left
      out).
    - Streamlit widgets are recorded on a [screen], in the order they are
      created, and creating one does not fail.  The headings, the progress
      bar and the clipboard button of the run are left out.
    - A zip archive is the list of the members written to it. *)

From Stdlib Require Import List NArith ZArith Arith Lia Bool.
From Stdlib Require Import Strings.Byte.
From Stdlib Require String.
Import String.StringSyntax.
Delimit Scope string_scope with string.
From Stdlib Require Import DecimalNat.
From Equations Require Import Equations.
Import ListNotations.

Set Implicit Arguments.

(* ===================================================================== *)
(** * Part I: definitions                                                 *)
(* ===================================================================== *)

(** ** Python strings *)

Definition char := N.
Definition str := list char.
Definition bytes := list byte.

(** UTF-8 decoding of a source literal (well-formed input only; a truncated
    sequence ends the result). *)
Fixpoint utf8_decode (bs : list N) : str :=
  match bs with
  | [] => []
  | b0 :: r0 =>
    if (b0 <? 128)%N then b0 :: utf8_decode r0
    else if (b0 <? 224)%N then
      match r0 with
      | b1 :: r1 => ((b0 - 192) * 64 + (b1 - 128))%N :: utf8_decode r1
      | [] => []
      end
    else if (b0 <? 240)%N then
      match r0 with
      | b1 :: b2 :: r2 =>
        ((b0 - 224) * 4096 + (b1 - 128) * 64 + (b2 - 128))%N :: utf8_decode r2
      | _ => []
      end
    else
      match r0 with
      | b1 :: b2 :: b3 :: r3 =>
        ((b0 - 240) * 262144 + (b1 - 128) * 4096 + (b2 - 128) * 64 + (b3 - 128))%N
          :: utf8_decode r3
      | _ => []
      end
  end.

Definition lit (s : String.string) : str :=
  utf8_decode (map Byte.to_N (String.list_byte_of_string s)).
Arguments lit s%_string : simpl never.

Definition byte_of_N (n : N) : byte :=
  match Byte.of_N n with Some b => b | None => x00 end.

(** [str.encode("utf-8")]: a lone surrogate (or a value that is no code
    point) raises [UnicodeEncodeError], here [None]. *)
Definition encode_char (c : char) : option bytes :=
  if (c <? 128)%N then Some [byte_of_N c]
  else if (c <? 2048)%N then
    Some [byte_of_N (192 + c / 64); byte_of_N (128 + c mod 64)]
  else if (c <? 65536)%N then
    if ((55296 <=? c) && (c <=? 57343))%N then None
    else Some [byte_of_N (224 + c / 4096); byte_of_N (128 + (c / 64) mod 64);
               byte_of_N (128 + c mod 64)]
  else if (c <? 1114112)%N then
    Some [byte_of_N (240 + c / 262144); byte_of_N (128 + (c / 4096) mod 64);
          byte_of_N (128 + (c / 64) mod 64); byte_of_N (128 + c mod 64)]
  else None.

Fixpoint encode_utf8 (s : str) : option bytes :=
  match s with
  | [] => Some []
  | c :: s' =>
    match encode_char c, encode_utf8 s' with
    | Some b, Some bs => Some (b ++ bs)
    | _, _ => None
    end
  end.

Definition LF : char := 10%N.
Definition SP : char := 32%N.

(** [Py_UNICODE_ISSPACE]: the characters [str.strip()] removes and [\s]
    matches. *)
Definition Py_UNICODE_ISSPACE (c : char) : bool :=
  (((9 <=? c) && (c <=? 13)) || ((28 <=? c) && (c <=? 32))
   || (c =? 133) || (c =? 160) || (c =? 5760)
   || ((8192 <=? c) && (c <=? 8202))
   || (c =? 8232) || (c =? 8233) || (c =? 8239) || (c =? 8287)
   || (c =? 12288))%N.

(** First code point of each block of ten decimal digits (general category
    Nd, Unicode 14.0, the table of CPython 3.11).  What follows relies only
    on [0-9] being decimal digits and on space, line feed and hyphen not
    being ones. *)
Definition Nd_zeros : list N :=
  [48; 1632; 1776; 1984; 2406; 2534; 2662; 2790; 2918; 3046; 3174; 3302;
   3430; 3558; 3664; 3792; 3872; 4160; 4240; 6112; 6160; 6470; 6608; 6784;
   6800; 6992; 7088; 7232; 7248; 42528; 43216; 43264; 43472; 43504; 43600;
   44016; 65296; 66720; 68912; 69734; 69872; 69942; 70096; 70384; 70736;
   70864; 71248; 71360; 71472; 71904; 72016; 72784; 73040; 73120; 92768;
   92864; 93008; 120782; 120792; 120802; 120812; 120822; 123200; 123632;
   125264; 130032]%N.

(** [Py_UNICODE_ISDECIMAL]: the characters [\d] matches. *)
Definition Py_UNICODE_ISDECIMAL (c : char) : bool :=
  existsb (fun z => (z <=? c) && (c <? z + 10))%N Nd_zeros.

Arguments Py_UNICODE_ISSPACE : simpl never.
Arguments Py_UNICODE_ISDECIMAL : simpl never.

Fixpoint lstrip (s : str) : str :=
  match s with
  | c :: s' => if Py_UNICODE_ISSPACE c then lstrip s' else s
  | [] => []
  end.

Fixpoint rstrip (s : str) : str :=
  match s with
  | [] => []
  | c :: s' =>
    match rstrip s' with
    | [] => if Py_UNICODE_ISSPACE c then [] else [c]
    | r => c :: r
    end
  end.

(** [s.strip()] *)
Definition strip (s : str) : str := rstrip (lstrip s).

(** [not s] for a string *)
Definition is_empty (s : str) : bool :=
  match s with [] => true | _ :: _ => false end.

(** [sep.join(parts)] *)
Fixpoint join (sep : str) (parts : list str) : str :=
  match parts with
  | [] => []
  | [p] => p
  | p :: rest => p ++ sep ++ join sep rest
  end.

Fixpoint chars_of_uint (d : Decimal.uint) : str :=
  match d with
  | Decimal.Nil => []
  | Decimal.D0 d => 48%N :: chars_of_uint d
  | Decimal.D1 d => 49%N :: chars_of_uint d
  | Decimal.D2 d => 50%N :: chars_of_uint d
  | Decimal.D3 d => 51%N :: chars_of_uint d
  | Decimal.D4 d => 52%N :: chars_of_uint d
  | Decimal.D5 d => 53%N :: chars_of_uint d
  | Decimal.D6 d => 54%N :: chars_of_uint d
  | Decimal.D7 d => 55%N :: chars_of_uint d
  | Decimal.D8 d => 56%N :: chars_of_uint d
  | Decimal.D9 d => 57%N :: chars_of_uint d
  end.

(** [f"{n}"] for a non-negative [int] *)
Definition str_of_nat (n : nat) : str := chars_of_uint (Nat.to_uint n).
Arguments str_of_nat : simpl never.

(** [s.rsplit(".", 1)[0]]: what precedes the last full stop, the whole
    string when there is none. *)
Fixpoint rsplit_dot_head (s : str) : option str :=
  match s with
  | [] => None
  | c :: s' =>
    match rsplit_dot_head s' with
    | Some h => Some (c :: h)
    | None => if (c =? 46)%N then Some [] else None
    end
  end.

Definition rsplit1_first (s : str) : str :=
  match rsplit_dot_head s with Some h => h | None => s end.

(** ** The fragment of [re] the program uses

    The pattern of [app.py] is a concatenation of single-character classes,
    each taken once, or under a greedy [*] or [+].  [match_here p s] is the
    backtracking matcher of [re] anchored at the start of [s]: the remainder
    after the first match in priority order (longest repetition first), or
    [None]. *)

Inductive item : Type :=
| One (cls : char -> bool)
| Star (cls : char -> bool)
| Plus (cls : char -> bool).

Fixpoint star (cls : char -> bool) (k : str -> option str) (s : str)
  : option str :=
  match s with
  | c :: s' =>
    if cls c then
      match star cls k s' with
      | Some r => Some r
      | None => k s
      end
    else k s
  | [] => k s
  end.

Fixpoint match_here (p : list item) : str -> option str :=
  match p with
  | [] => fun s => Some s
  | One cls :: p' =>
    fun s => match s with
             | c :: s' => if cls c then match_here p' s' else None
             | [] => None
             end
  | Star cls :: p' => star cls (match_here p')
  | Plus cls :: p' =>
    fun s => match s with
             | c :: s' => if cls c then star cls (match_here p') s' else None
             | [] => None
             end
  end.

Definition literal (l : str) : list item := map (fun c => One (N.eqb c)) l.

Definition inspect {A : Type} (a : A) : {b : A | a = b} := exist _ a eq_refl.

Definition cons_head (c : char) (segs : list str) : list str :=
  match segs with
  | h :: t => (c :: h) :: t
  | [] => [[c]]
  end.

(** [re.sub(p, repl, s)]: the leftmost non-overlapping matches are replaced,
    scanning from left to right.  A match that consumes nothing is replaced
    and the scan moves one character on, as [re] does. *)
Equations re_sub (p : list item) (repl : str) (s : str) : str
  by wf (length s) lt :=
  re_sub p repl s with inspect (match_here p s) := {
    | exist _ (Some rest) _ with lt_dec (length rest) (length s) := {
      | left _ => repl ++ re_sub p repl rest
      | right _ with s := {
        | [] => repl
        | c :: s' => repl ++ c :: re_sub p repl s' } }
    | exist _ None _ with s := {
      | [] => []
      | c :: s' => c :: re_sub p repl s' } }.

(** [re.split(p, s)] for a pattern without groups: the pieces of [s] between
    the matches that [re.sub] replaces. *)
Equations re_split (p : list item) (s : str) : list str
  by wf (length s) lt :=
  re_split p s with inspect (match_here p s) := {
    | exist _ (Some rest) _ with lt_dec (length rest) (length s) := {
      | left _ => [] :: re_split p rest
      | right _ with s := {
        | [] => [[]; []]
        | c :: s' => [] :: cons_head c (re_split p s') } }
    | exist _ None _ with s := {
      | [] => [[]]
      | c :: s' => cons_head c (re_split p s') } }.

(** [occurs p s]: [re.search(p, s)] finds a match. *)
Fixpoint occurs (p : list item) (s : str) : bool :=
  match match_here p s with
  | Some _ => true
  | None => match s with
            | [] => false
            | _ :: s' => occurs p s'
            end
  end.

(** ** The world the script runs in *)

Inductive level : Type := INFO | WARNING | ERROR.

(** What the code asks of the PDF library: the attributes and methods of an
    opened document that [extract_text_from_pdf] touches. *)
Record Page : Type := mkPage {
  (** the value of [page.extract_text(x_tolerance=1.5, y_tolerance=1.0)];
      [None] is Python's [None] *)
  extract_text : option str
}.

Record PDF : Type := mkPDF {
  (** the attribute may be missing: the code reads it with [getattr] *)
  is_encrypted : option bool;
  (** [pdf.decrypt(password)], 0 when the password does not open it *)
  decrypt : str -> Z;
  pages : list Page
}.

Inductive exn : Type :=
| ValueError (msg : str)
(** any other exception class, with its name *)
| OtherError (cls : str).

Inductive lib_call : Type :=
| call_open (file_bytes : bytes)
| call_decrypt (password : str)
| call_extract_text (page_number : nat).

(** Payload of a download button. *)
Inductive payload : Type :=
| Data (b : bytes)
(** an in-memory zip archive: its members in the order they were written *)
| ZipFile (members : list (str * bytes)).

Inductive widget : Type :=
| st_warning (body : str)
| st_error (body : str)
| st_text_area (label value : str)
| st_download_button (label : str) (data : payload) (file_name mime : str)
| st_expander_line (body : str).

Record World : Type := mkWorld {
  log_stream : list (level * str);
  trace : list lib_call;
  screen : list widget
}.

(** Computations of the script: they read and extend the world and end with
    a value or with a raised exception. *)
Definition M (A : Type) : Type := World -> (exn + A) * World.

Definition ret {A} (a : A) : M A := fun w => (inr a, w).

Definition raise {A} (e : exn) : M A := fun w => (inl e, w).

Definition bind {A B} (m : M A) (f : A -> M B) : M B :=
  fun w => match m w with
           | (inr a, w') => f a w'
           | (inl e, w') => (inl e, w')
           end.

(** [try: body except Exception as e: handler(e)] *)
Definition try_except {A} (body : M A) (handler : exn -> M A) : M A :=
  fun w => match body w with
           | (inr a, w') => (inr a, w')
           | (inl e, w') => handler e w'
           end.

Notation "x <- m ;; f" := (bind m (fun x => f))
  (at level 61, m at next level, right associativity).
Notation "' pat <- m ;; f" := (bind m (fun x => match x with pat => f end))
  (at level 61, pat pattern, m at next level, right associativity).
Notation "m ;; f" := (bind m (fun _ => f))
  (at level 61, right associativity).

Definition log (lv : level) (msg : str) : M unit :=
  fun w => (inr tt, mkWorld (log_stream w ++ [(lv, msg)]) (trace w) (screen w)).

Definition logger_info := log INFO.
Definition logger_warning := log WARNING.
Definition logger_error := log ERROR.
(** [logger.exception] logs at level ERROR (the traceback it adds is left
    out). *)
Definition logger_exception := log ERROR.

Definition called (c : lib_call) : M unit :=
  fun w => (inr tt, mkWorld (log_stream w) (trace w ++ [c]) (screen w)).

Definition show (x : widget) : M unit :=
  fun w => (inr tt, mkWorld (log_stream w) (trace w) (screen w ++ [x])).

(** Truth value of an [Optional[str]]: [None] and the empty string are
    false. *)
Definition truthy (password : option str) : option str :=
  match password with
  | Some (c :: p) => Some (c :: p)
  | _ => None
  end.

(** [f"\n\n--- Página {i} ---\n\n"] *)
Definition page_header (i : nat) : str :=
  [LF; LF] ++ lit "--- Página " ++ str_of_nat i ++ lit " ---" ++ [LF; LF].

Definition page_warning (i : nat) : str :=
  lit "Página " ++ str_of_nat i
      ++ lit ": no se pudo extraer texto (puede ser escaneada/imagen).".

Definition empty_warning : str :=
  lit "No se extrajo texto. El PDF podría ser escaneado/imagen sin OCR.".

Definition msg_wrong_password : str :=
  lit "Contraseña incorrecta para el PDF protegido.".

Definition msg_password_required : str :=
  lit "El PDF está protegido. Proporciona una contraseña.".

(** [getattr(pdf, "is_encrypted", False)] *)
Definition getattr_is_encrypted (pdf : PDF) : bool :=
  match is_encrypted pdf with
  | Some b => b
  | None => false
  end.

Section Extractor.

(** [pdfplumber.open(io.BytesIO(file_bytes))]: the opened document, or
    the exception the library raises on a buffer it cannot parse. *)
Variable pdfplumber_open : bytes -> exn + PDF.

Definition open_pdf (file_bytes : bytes) : M PDF :=
  called (call_open file_bytes) ;;
  match pdfplumber_open file_bytes with
  | inr pdf => ret pdf
  | inl e => raise e
  end.

Definition pdf_decrypt (pdf : PDF) (password : str) : M Z :=
  called (call_decrypt password) ;;
  ret (decrypt pdf password).

Definition page_extract_text (i : nat) (page : Page) : M (option str) :=
  called (call_extract_text i) ;;
  ret (extract_text page).

(** The body of [for i, page in enumerate(pdf.pages, start=1)], from page
    number [i] on, threading the two lists the loop appends to. *)
Fixpoint page_loop (num_pages i : nat) (ps : list Page)
         (warnings text_chunks : list str) : M (list str * list str) :=
  match ps with
  | [] => ret (warnings, text_chunks)
  | page :: ps' =>
    page_text <- page_extract_text i page ;;
    match page_text with
    | None =>
      let warnings := warnings ++ [page_warning i] in
      logger_warning (lit "Página " ++ str_of_nat i ++ lit " sin texto extraíble.") ;;
      page_loop num_pages (S i) ps' warnings text_chunks
    | Some page_text =>
      let header := if 1 <? num_pages then page_header i else [] in
      page_loop num_pages (S i) ps' warnings
                (text_chunks ++ [header ++ page_text])
    end
  end.

Definition extract_text_from_pdf (file_bytes : bytes) (password : option str)
  : M (str * list str) :=
  try_except
    (pdf <- open_pdf file_bytes ;;
     (if getattr_is_encrypted pdf then
        logger_info (lit "El PDF está cifrado.") ;;
        match truthy password with
        | Some password =>
          ok <- pdf_decrypt pdf password ;;
          if (ok =? 0)%Z then raise (ValueError msg_wrong_password)
          else logger_info (lit "Desencriptado con la contraseña proporcionada.")
        | None => raise (ValueError msg_password_required)
        end
      else ret tt) ;;
     let num_pages := length (pages pdf) in
     logger_info (lit "Páginas detectadas: " ++ str_of_nat num_pages) ;;
     ' (warnings, text_chunks) <- page_loop num_pages 1 (pages pdf) [] [] ;;
     let full_text := strip (concat text_chunks) in
     if is_empty full_text then
       let warnings := warnings ++ [empty_warning] in
       logger_warning
         (lit "Extracción vacía; considerar aplicar OCR externo si el PDF es imagen.") ;;
       ret (full_text, warnings)
     else ret (full_text, warnings))
    (fun e =>
       logger_exception (lit "Fallo durante la extracción.") ;;
       raise e).

End Extractor.

(** ** Output names and the caller of the extractor *)

Definition to_txt_filename (pdf_name : str) : str :=
  let base := rsplit1_first pdf_name in
  base ++ lit ".txt".

(** The pattern [r"\n*\s*--- Página \d+ ---\s*\n*"] *)
Definition separator_pattern : list item :=
  [Star (N.eqb LF); Star Py_UNICODE_ISSPACE]
    ++ literal (lit "--- Página ")
    ++ [Plus Py_UNICODE_ISDECIMAL]
    ++ literal (lit " ---")
    ++ [Star Py_UNICODE_ISSPACE; Star (N.eqb LF)].

(** [re.sub(r"\n*\s*--- Página \d+ ---\s*\n*", "\n", text).strip()] *)
Definition remove_separators (text : str) : str :=
  strip (re_sub separator_pattern [LF] text).

(** The text shown and offered for download: the run removes the separators
    when the toggle is off. *)
Definition displayed_text (show_page_headers : bool) (text : str) : str :=
  if show_page_headers then text else remove_separators text.

Record UploadedFile : Type := mkUpload {
  name : str;
  (** the value of [up.read()] *)
  read : bytes
}.

(** An element of [outputs]: [(filename, text, warnings)] *)
Definition output : Type := (str * str * list str)%type.

(** [text.encode("utf-8")]; [UnicodeEncodeError] is a subclass of
    [ValueError] (its message is abridged). *)
Definition str_encode (text : str) : M bytes :=
  match encode_utf8 text with
  | Some b => ret b
  | None => raise (ValueError (lit "'utf-8' codec can't encode character: surrogates not allowed"))
  end.

Fixpoint show_lines (ws : list str) : M unit :=
  match ws with
  | [] => ret tt
  | w :: ws' => show (st_expander_line (lit "- " ++ w)) ;; show_lines ws'
  end.

Section Run.

Variable pdfplumber_open : bytes -> exn + PDF.
(** the password field and the toggle of the side bar *)
Variable password : str.
Variable show_page_headers : bool.

(** One turn of [for idx, up in enumerate(uploaded_files, start=1)]
    (the heading, the progress bar and the clipboard button are left
    out). *)
Definition process_upload (up : UploadedFile) (outputs : list output)
  : M (list output) :=
  try_except
    (let pdf_bytes := read up in
     ' (text, warns) <-
       extract_text_from_pdf pdfplumber_open pdf_bytes (truthy (Some password)) ;;
     let text := displayed_text show_page_headers text in
     show (st_text_area (lit "Texto extraído de " ++ name up) text) ;;
     let txt_fname := to_txt_filename (name up) in
     data <- str_encode text ;;
     show (st_download_button (lit "⬇️ Descargar " ++ txt_fname) (Data data)
                              txt_fname (lit "text/plain")) ;;
     show_lines warns ;;
     logger_info (lit "Procesado OK: " ++ name up) ;;
     ret (outputs ++ [(txt_fname, text, warns)]))
    (fun e =>
       match e with
       | ValueError ve =>
         show (st_error (name up ++ lit ": " ++ ve)) ;;
         logger_error (name up ++ lit ": " ++ ve) ;;
         ret outputs
       | OtherError _ =>
         show (st_error (name up ++ lit ": Error al procesar. Revisa logs.")) ;;
         logger_exception (name up ++ lit ": Error inesperado.") ;;
         ret outputs
       end).

Fixpoint process_all (ups : list UploadedFile) (outputs : list output)
  : M (list output) :=
  match ups with
  | [] => ret outputs
  | up :: ups' =>
    outputs <- process_upload up outputs ;;
    process_all ups' outputs
  end.

(** [for fname, text, _ in outputs: zf.writestr(fname, text)] *)
Fixpoint write_members (outputs : list output) (members : list (str * bytes))
  : M (list (str * bytes)) :=
  match outputs with
  | [] => ret members
  | (fname, text, _) :: outputs' =>
    data <- str_encode text ;;
    write_members outputs' (members ++ [(fname, data)])
  end.

(** The block under [if run:] *)
Definition run (uploaded_files : list UploadedFile) : M unit :=
  match uploaded_files with
  | [] => show (st_warning (lit "Sube al menos un archivo PDF."))
  | _ :: _ =>
    outputs <- process_all uploaded_files [] ;;
    if 1 <? length outputs then
      members <- write_members outputs [] ;;
      show (st_download_button (lit "⬇️ Descargar todos como ZIP")
                               (ZipFile members) (lit "txt_convertidos.zip")
                               (lit "application/zip"))
    else ret tt
  end.

End Run.

(** ** Notions used to state the properties *)

Definition empty_world : World := mkWorld [] [] [].

(** The marker line [--- Página <n> ---] alone, without the white space the
    separator pattern takes around it. *)
Definition marker_pattern : list item :=
  literal (lit "--- Página ") ++ [Plus Py_UNICODE_ISDECIMAL] ++ literal (lit " ---").

Definition has_marker (s : str) : bool := occurs marker_pattern s.

(** The matcher spelled out for the marker: the literal [--- Página ], the
    longest run of decimal digits (at least one), the literal [ ---].
    [marker_at_correct] below shows that the backtracking matcher computes
    exactly this. *)
Definition marker_pre : str := Eval vm_compute in lit "--- Página ".
Definition marker_post : str := Eval vm_compute in lit " ---".

Fixpoint strip_prefix (l s : str) : option str :=
  match l with
  | [] => Some s
  | c :: l' =>
    match s with
    | x :: s' => if (c =? x)%N then strip_prefix l' s' else None
    | [] => None
    end
  end.

Fixpoint skip (cls : char -> bool) (s : str) : str :=
  match s with
  | c :: s' => if cls c then skip cls s' else s
  | [] => []
  end.

Definition marker_at (s : str) : option str :=
  match strip_prefix marker_pre s with
  | Some (d :: s1) =>
    if Py_UNICODE_ISDECIMAL d
    then strip_prefix marker_post (skip Py_UNICODE_ISDECIMAL s1)
    else None
  | _ => None
  end.

(** Only white space (or nothing at all). *)
Definition blank (s : str) : bool := forallb Py_UNICODE_ISSPACE s.

(** The non-empty pieces of a text split on the page separators. *)
Definition segments (text : str) : list str :=
  filter (fun piece => negb (is_empty piece)) (re_split separator_pattern text).

(** The texts of the pages that yield one, in page order. *)
Definition page_texts (ps : list Page) : list str :=
  flat_map (fun p => match extract_text p with
                     | Some t => [t]
                     | None => []
                     end) ps.

(** The document lets the extractor in: it is not encrypted, or the
    password opens it. *)
Definition granted (pdf : PDF) (password : option str) : bool :=
  if getattr_is_encrypted pdf then
    match truthy password with
    | Some p => negb (decrypt pdf p =? 0)%Z
    | None => false
    end
  else true.

(** The message of the [ValueError] raised when it does not. *)
Definition denial_message (password : option str) : str :=
  match truthy password with
  | Some _ => msg_wrong_password
  | None => msg_password_required
  end.

(** What the page loop appends, as functions of the pages. *)
Fixpoint loop_warnings (i : nat) (ps : list Page) : list str :=
  match ps with
  | [] => []
  | p :: ps' =>
    match extract_text p with
    | None => page_warning i :: loop_warnings (S i) ps'
    | Some _ => loop_warnings (S i) ps'
    end
  end.

Fixpoint loop_chunks (num_pages i : nat) (ps : list Page) : list str :=
  match ps with
  | [] => []
  | p :: ps' =>
    match extract_text p with
    | None => loop_chunks num_pages (S i) ps'
    | Some t =>
      ((if 1 <? num_pages then page_header i else []) ++ t)
        :: loop_chunks num_pages (S i) ps'
    end
  end.

Fixpoint loop_log (i : nat) (ps : list Page) : list (level * str) :=
  match ps with
  | [] => []
  | p :: ps' =>
    match extract_text p with
    | None =>
      (WARNING, lit "Página " ++ str_of_nat i ++ lit " sin texto extraíble.")
        :: loop_log (S i) ps'
    | Some _ => loop_log (S i) ps'
    end
  end.

Definition document_text (pdf : PDF) : str :=
  strip (concat (loop_chunks (length (pages pdf)) 1 (pages pdf))).

Definition document_warnings (pdf : PDF) : list str :=
  loop_warnings 1 (pages pdf)
    ++ (if is_empty (document_text pdf) then [empty_warning] else []).

(** The text the extractor would return for the same pages if it put no
    header before any of them. *)
Definition text_without_headers (pdf : PDF) : str :=
  strip (concat (page_texts (pages pdf))).

(** The example of the specification: two pages, "Hello" and "World". *)
Definition hello_world_pdf : PDF :=
  mkPDF None (fun _ => 0%Z)
        [mkPage (Some (lit "Hello")); mkPage (Some (lit "World"))].

(** A document protected by the password "secret". *)
Definition locked_pdf : PDF :=
  mkPDF (Some true)
        (fun p => if list_eq_dec N.eq_dec p (lit "secret") then 1%Z else 0%Z)
        [mkPage (Some (lit "Hello")); mkPage None].

(** A page that quotes a header, and a page of white space. *)
Definition quoting_pdf : PDF :=
  mkPDF None (fun _ => 0%Z)
        [mkPage (Some (lit "a" ++ page_header 1 ++ lit "b"))].

Definition blank_page_pdf : PDF :=
  mkPDF None (fun _ => 0%Z)
        [mkPage (Some (lit "x")); mkPage (Some (lit " "))].

(** How a call of the extractor ends, as a function of the buffer and the
    password ([extract_outcome_world] below shows that it is). *)
Definition extract_outcome (pdfplumber_open : bytes -> exn + PDF)
           (file_bytes : bytes) (password : option str)
  : exn + (str * list str) :=
  match pdfplumber_open file_bytes with
  | inl e => inl e
  | inr pdf =>
    if granted pdf password
    then inr (document_text pdf, document_warnings pdf)
    else inl (ValueError (denial_message password))
  end.

(** What one uploaded file adds to [outputs]: nothing when the extractor or
    the encoding of the text raises. *)
Definition upload_output (pdfplumber_open : bytes -> exn + PDF)
           (password : str) (show_page_headers : bool) (up : UploadedFile)
  : option output :=
  match extract_outcome pdfplumber_open (read up) (truthy (Some password)) with
  | inr (text, warns) =>
    let text := displayed_text show_page_headers text in
    match encode_utf8 text with
    | Some _ => Some (to_txt_filename (name up), text, warns)
    | None => None
    end
  | inl _ => None
  end.


Definition olist {A : Type} (o : option A) : list A :=
  match o with Some a => [a] | None => [] end.

(** The list [outputs] after the loop over the uploaded files. *)
Definition processed (pdfplumber_open : bytes -> exn + PDF)
           (password : str) (show_page_headers : bool)
           (ups : list UploadedFile) : list output :=
  flat_map (fun up => olist (upload_output pdfplumber_open password
                                           show_page_headers up)) ups.

(** The file name and the bytes under which a text is offered. *)
Definition member_of (o : output) : str * bytes :=
  let '(fname, text, _) := o in
  (fname, match encode_utf8 text with Some b => b | None => [] end).



(** ** Notions used to state the further properties *)

(** The calls a run of the extractor makes into the library, and the
    records it writes to the log, as functions of the buffer and the
    password ([extract_run] below shows that they are). *)
Definition extract_calls (pdfplumber_open : bytes -> exn + PDF)
           (file_bytes : bytes) (password : option str) : list lib_call :=
  call_open file_bytes
    :: match pdfplumber_open file_bytes with
       | inl _ => []
       | inr pdf =>
         (if getattr_is_encrypted pdf
          then match truthy password with
               | Some p => [call_decrypt p]
               | None => []
               end
          else [])
           ++ (if granted pdf password
               then map call_extract_text (seq 1 (length (pages pdf)))
               else [])
       end.

Definition failure_record : level * str :=
  (ERROR, lit "Fallo durante la extracción.").

Definition extract_log (pdfplumber_open : bytes -> exn + PDF)
           (file_bytes : bytes) (password : option str) : list (level * str) :=
  match pdfplumber_open file_bytes with
  | inl _ => [failure_record]
  | inr pdf =>
    (if getattr_is_encrypted pdf
     then (INFO, lit "El PDF está cifrado.")
            :: (if granted pdf password
                then [(INFO, lit "Desencriptado con la contraseña proporcionada.")]
                else [])
     else [])
      ++ (if granted pdf password
          then (INFO, lit "Páginas detectadas: " ++ str_of_nat (length (pages pdf)))
                 :: loop_log 1 (pages pdf)
                 ++ (if is_empty (document_text pdf)
                     then [(WARNING,
                            lit "Extracción vacía; considerar aplicar OCR externo si el PDF es imagen.")]
                     else [])
          else [failure_record])
  end.

(** The page numbers asked of [extract_text], and the buffers opened, in a
    list of library calls. *)
Definition page_reads (calls : list lib_call) : list nat :=
  flat_map (fun c => match c with
                     | call_extract_text i => [i]
                     | _ => []
                     end) calls.

Definition opened (calls : list lib_call) : list bytes :=
  flat_map (fun c => match c with
                     | call_open b => [b]
                     | _ => []
                     end) calls.

Definition levels (entries : list (level * str)) : list level := map fst entries.

Definition is_error (lv : level) : bool :=
  match lv with ERROR => true | _ => false end.


Definition text_areas (ws : list widget) : list str :=
  flat_map (fun x => match x with
                     | st_text_area _ value => [value]
                     | _ => []
                     end) ws.

(** What one uploaded file puts on the screen ([process_upload_screen]
    below shows that it does). *)
Definition upload_widgets (pdfplumber_open : bytes -> exn + PDF)
           (password : str) (show_page_headers : bool) (up : UploadedFile)
  : list widget :=
  match extract_outcome pdfplumber_open (read up) (truthy (Some password)) with
  | inl (ValueError ve) => [st_error (name up ++ lit ": " ++ ve)]
  | inl (OtherError _) => [st_error (name up ++ lit ": Error al procesar. Revisa logs.")]
  | inr (text, warns) =>
    let text := displayed_text show_page_headers text in
    st_text_area (lit "Texto extraído de " ++ name up) text
      :: match encode_utf8 text with
         | Some data =>
           st_download_button (lit "⬇️ Descargar " ++ to_txt_filename (name up))
                              (Data data) (to_txt_filename (name up))
                              (lit "text/plain")
             :: map (fun x => st_expander_line (lit "- " ++ x)) warns
         | None =>
           [st_error (name up ++ lit ": "
                           ++ lit "'utf-8' codec can't encode character: surrogates not allowed")]
         end
  end.

(** The page numbers of the pages without text. *)
Definition pages_without_text (ps : list Page) : list nat :=
  map fst (filter (fun ip => match extract_text (snd ip) with
                             | None => true
                             | Some _ => false
                             end)
                  (combine (seq 1 (length ps)) ps)).

(** A library for the examples: the empty buffer is the two-page example,
    a buffer of one byte is the protected document, a buffer of two bytes
    is the same document without protection, and nothing else parses. *)
Definition unprotected_pdf : PDF :=
  mkPDF (Some false) (fun _ => 0%Z) (pages locked_pdf).

Definition example_library (b : bytes) : exn + PDF :=
  match b with
  | [] => inr hello_world_pdf
  | [_] => inr locked_pdf
  | [_; _] => inr unprotected_pdf
  | _ => inl (OtherError (lit "PDFSyntaxError"))
  end.

(** The texts of the pages that yield one, each with the number of its
    page. *)
Definition numbered_texts (ps : list Page) : list (nat * str) :=
  flat_map (fun ip => match extract_text (snd ip) with
                      | Some t => [(fst ip, t)]
                      | None => []
                      end)
           (combine (seq 1 (length ps)) ps).

(** What a run puts on the screen ([run_in_full] below shows that it
    does). *)
Definition run_widgets (pdfplumber_open : bytes -> exn + PDF)
           (password : str) (show_page_headers : bool)
           (uploaded_files : list UploadedFile) : list widget :=
  match uploaded_files with
  | [] => [st_warning (lit "Sube al menos un archivo PDF.")]
  | _ :: _ =>
    flat_map (upload_widgets pdfplumber_open password show_page_headers)
             uploaded_files
      ++ (if 1 <? length (processed pdfplumber_open password show_page_headers
                                    uploaded_files)
          then [st_download_button
                  (lit "⬇️ Descargar todos como ZIP")
                  (ZipFile (map member_of
                                (processed pdfplumber_open password
                                           show_page_headers uploaded_files)))
                  (lit "txt_convertidos.zip") (lit "application/zip")]
          else [])
  end.

(** The calls a run makes into the library. *)
Definition run_calls (pdfplumber_open : bytes -> exn + PDF) (password : str)
           (uploaded_files : list UploadedFile) : list lib_call :=
  flat_map (fun up => extract_calls pdfplumber_open (read up)
                                    (truthy (Some password)))
           uploaded_files.

(* ===================================================================== *)
(** * Part II: properties                                                 *)
(* ===================================================================== *)

Unset Implicit Arguments.

#[local] Arguments N.eqb : simpl never.

(** ** The embedding at work *)

Example str_of_nat_120 : str_of_nat 120 = lit "120".
Proof. reflexivity. Qed.

Example strip_both_ends :
  strip ([LF; SP] ++ lit "a b" ++ [SP; LF]) = lit "a b".
Proof. reflexivity. Qed.

Example to_txt_filename_last_dot :
  to_txt_filename (lit "informe.v2.pdf") = lit "informe.v2.txt".
Proof. reflexivity. Qed.

Example re_sub_empty_matches :
  re_sub [Star (N.eqb 120)] (lit "-") (lit "axxb") = lit "-a--b-".
Proof. reflexivity. Qed.

Example re_split_empty_matches :
  re_split [Star (N.eqb 120)] (lit "axb") = [[]; lit "a"; []; lit "b"; []].
Proof. reflexivity. Qed.

Example star_gives_back :
  match_here [Star (N.eqb 97); One (N.eqb 97); One (N.eqb 98)] (lit "aaab")
  = Some [].
Proof. reflexivity. Qed.

Example remove_separators_two_pages :
  remove_separators (lit "--- Página 1 ---" ++ [LF; LF] ++ lit "Hello  " ++ [LF; LF]
                         ++ lit "--- Página 12 ---" ++ [LF; LF] ++ lit "World")
  = lit "Hello" ++ [LF] ++ lit "World".
Proof. reflexivity. Qed.

(** ** The page loop and the extractor *)

Lemma world_eta (w : World) :
  mkWorld (log_stream w) (trace w) (screen w) = w.
Proof. destruct w; reflexivity. Qed.

Section ExtractorFacts.

Variable pdfplumber_open : bytes -> exn + PDF.

Lemma page_loop_spec (num_pages : nat) (ps : list Page) :
  forall i warnings text_chunks w,
    page_loop num_pages i ps warnings text_chunks w
    = (inr (warnings ++ loop_warnings i ps,
            text_chunks ++ loop_chunks num_pages i ps),
       mkWorld (log_stream w ++ loop_log i ps)
               (trace w ++ map call_extract_text (seq i (length ps)))
               (screen w)).
Proof.
  induction ps as [|p ps IH]; intros i ws cs w; simpl.
  - unfold ret. rewrite !app_nil_r, world_eta. reflexivity.
  - unfold bind at 1. unfold page_extract_text, bind, called, ret; simpl.
    destruct (extract_text p) as [t|]; simpl.
    + rewrite IH; simpl. rewrite <- !app_assoc. reflexivity.
    + unfold bind, logger_warning, log; simpl.
      rewrite IH; simpl. rewrite <- !app_assoc. reflexivity.
Qed.

(** The two outcomes of the encryption check, and the run on a buffer the
    library cannot open. *)
Lemma extract_granted file_bytes password pdf w :
  pdfplumber_open file_bytes = inr pdf ->
  granted pdf password = true ->
  exists entries,
    extract_text_from_pdf pdfplumber_open file_bytes password w
    = (inr (document_text pdf, document_warnings pdf),
       mkWorld (log_stream w ++ entries)
               (trace w ++ call_open file_bytes
                      :: (if getattr_is_encrypted pdf
                          then match truthy password with
                               | Some p => [call_decrypt p]
                               | None => []
                               end
                          else [])
                      ++ map call_extract_text (seq 1 (length (pages pdf))))
               (screen w)).
Proof.
  intros Hopen Hg. unfold granted in Hg.
  unfold extract_text_from_pdf, try_except, open_pdf, bind, called; simpl.
  rewrite Hopen. unfold ret at 1.
  destruct (getattr_is_encrypted pdf) eqn:Henc.
  - destruct (truthy password) as [p|] eqn:Hp; [|discriminate].
    unfold logger_info, log, pdf_decrypt, bind, called, ret; simpl.
    destruct (decrypt pdf p =? 0)%Z eqn:Hd; [discriminate|]. simpl.
    rewrite page_loop_spec; simpl.
    unfold document_warnings, document_text.
    destruct (is_empty _); unfold logger_warning, log, ret; simpl;
      rewrite <- ?app_assoc, ?app_nil_r; simpl; eexists; reflexivity.
  - unfold ret at 1. unfold logger_info, log; simpl.
    rewrite page_loop_spec; simpl.
    unfold document_warnings, document_text.
    destruct (is_empty _); unfold logger_warning, log, ret; simpl;
      rewrite <- ?app_assoc, ?app_nil_r; simpl; eexists; reflexivity.
Qed.

Lemma extract_denied file_bytes password pdf w :
  pdfplumber_open file_bytes = inr pdf ->
  granted pdf password = false ->
  exists entries calls,
    extract_text_from_pdf pdfplumber_open file_bytes password w
    = (inl (ValueError (denial_message password)),
       mkWorld (log_stream w ++ entries) (trace w ++ calls) (screen w))
    /\ (forall i, ~ In (call_extract_text i) calls).
Proof.
  intros Hopen Hg. unfold granted in Hg. unfold denial_message.
  unfold extract_text_from_pdf, try_except, open_pdf, bind, called; simpl.
  rewrite Hopen. unfold ret at 1.
  destruct (getattr_is_encrypted pdf) eqn:Henc; [|discriminate].
  destruct (truthy password) as [p|] eqn:Hp.
  - unfold logger_info, logger_exception, log, pdf_decrypt, bind, called, ret, raise; simpl.
    destruct (decrypt pdf p =? 0)%Z eqn:Hd; [|discriminate]. simpl.
    do 2 eexists. split.
    + rewrite <- !app_assoc; simpl. reflexivity.
    + intros i [H|[H|[]]]; discriminate.
  - unfold logger_info, logger_exception, log, bind, raise; simpl.
    do 2 eexists. split.
    + rewrite <- !app_assoc; simpl. reflexivity.
    + intros i [H|[]]; discriminate.
Qed.

Lemma extract_unopened file_bytes password e w :
  pdfplumber_open file_bytes = inl e ->
  exists entries,
    extract_text_from_pdf pdfplumber_open file_bytes password w
    = (inl e, mkWorld (log_stream w ++ entries)
                      (trace w ++ [call_open file_bytes]) (screen w)).
Proof.
  intros Hopen.
  unfold extract_text_from_pdf, try_except, open_pdf, bind, called; simpl.
  rewrite Hopen. unfold raise, logger_exception, log; simpl.
  eexists. reflexivity.
Qed.

End ExtractorFacts.

(** ** White space and [strip] *)

Lemma lstrip_blank (s : str) : blank s = true -> lstrip s = [].
Proof.
  induction s as [|c s IH]; simpl; [reflexivity|].
  intros H. apply andb_prop in H. destruct H as [Hc Hs].
  rewrite Hc. auto.
Qed.

Lemma rstrip_blank (s : str) : blank s = true -> rstrip s = [].
Proof.
  induction s as [|c s IH]; simpl; [reflexivity|].
  intros H. apply andb_prop in H. destruct H as [Hc Hs].
  rewrite (IH Hs), Hc. reflexivity.
Qed.

Lemma rstrip_nil_blank (s : str) : rstrip s = [] -> blank s = true.
Proof.
  induction s as [|c s IH]; simpl; [reflexivity|].
  destruct (rstrip s) as [|x r]; [|discriminate].
  destruct (Py_UNICODE_ISSPACE c); [|discriminate].
  intros _. simpl. auto.
Qed.

Lemma lstrip_not_blank (c : char) (s : str) :
  Py_UNICODE_ISSPACE c = false -> lstrip (c :: s) = c :: s.
Proof. intros H; simpl; rewrite H; reflexivity. Qed.

Lemma blank_app (a b : str) : blank (a ++ b) = blank a && blank b.
Proof. unfold blank. apply forallb_app. Qed.

Lemma lstrip_app_blank (a b : str) : blank a = true -> lstrip (a ++ b) = lstrip b.
Proof.
  induction a as [|c a IH]; simpl; [reflexivity|].
  intros H. apply andb_prop in H. destruct H as [Hc Ha].
  rewrite Hc. auto.
Qed.

Lemma strip_blank (s : str) : blank s = true -> strip s = [].
Proof. intros H. unfold strip. rewrite (lstrip_blank _ H). reflexivity. Qed.

Lemma lstrip_blank_iff (s : str) : lstrip s = [] -> blank s = true.
Proof.
  induction s as [|c s IH]; simpl; [reflexivity|].
  destruct (Py_UNICODE_ISSPACE c); [auto|discriminate].
Qed.

Lemma strip_nil_blank (s : str) : strip s = [] -> blank s = true.
Proof.
  unfold strip. intros H. apply rstrip_nil_blank in H.
  induction s as [|c s IH]; simpl in *; [reflexivity|].
  destruct (Py_UNICODE_ISSPACE c) eqn:Hc; simpl; [auto|].
  simpl in H. rewrite Hc in H. discriminate.
Qed.

(** ** Claims on the extractor *)

Lemma loop_chunks_none (n : nat) (ps : list Page) :
  Forall (fun p => extract_text p = None) ps ->
  forall i, loop_chunks n i ps = [].
Proof.
  induction 1 as [|p ps Hp _ IH]; intros i; simpl; [reflexivity|].
  rewrite Hp. apply IH.
Qed.

Lemma loop_warnings_none (ps : list Page) :
  Forall (fun p => extract_text p = None) ps ->
  forall i, loop_warnings i ps = map page_warning (seq i (length ps)).
Proof.
  induction 1 as [|p ps Hp _ IH]; intros i; simpl; [reflexivity|].
  rewrite Hp, IH. reflexivity.
Qed.

Lemma loop_warnings_some (ps : list Page) :
  Forall (fun p => extract_text p <> None) ps ->
  forall i, loop_warnings i ps = [].
Proof.
  induction 1 as [|p ps Hp _ IH]; intros i; simpl; [reflexivity|].
  destruct (extract_text p); [apply IH|congruence].
Qed.

Lemma loop_chunks_empty_pages (n : nat) (ps : list Page) :
  (1 <? n) = true ->
  Forall (fun p => extract_text p = Some []) ps ->
  forall i, loop_chunks n i ps = map page_header (seq i (length ps)).
Proof.
  intros Hn. induction 1 as [|p ps Hp _ IH]; intros i; simpl; [reflexivity|].
  rewrite Hp, Hn, IH, app_nil_r. reflexivity.
Qed.

Lemma page_header_not_blank (i : nat) (s : str) : blank (page_header i ++ s) = false.
Proof. reflexivity. Qed.

(** C1, as amended.  The two-page example of the specification: the text is
    the two page texts, each behind its header, and no warning is raised.
    The header the code writes is [--- Página i ---]. *)
Theorem extract_hello_world
        (pdfplumber_open : bytes -> exn + PDF) (file_bytes : bytes)
        (password : option str) (pdf : PDF) (w : World) :
  pdfplumber_open file_bytes = inr pdf ->
  getattr_is_encrypted pdf = false ->
  pages pdf = [mkPage (Some (lit "Hello")); mkPage (Some (lit "World"))] ->
  fst (extract_text_from_pdf pdfplumber_open file_bytes password w)
  = inr (lit "--- Página 1 ---" ++ [LF; LF] ++ lit "Hello" ++ [LF; LF]
             ++ lit "--- Página 2 ---" ++ [LF; LF] ++ lit "World",
         []).
Proof.
  intros Hopen Henc Hpages.
  destruct (extract_granted pdfplumber_open file_bytes password _ w Hopen) as [entries E].
  - unfold granted. rewrite Henc. reflexivity.
  - rewrite E. simpl. unfold document_warnings, document_text.
    rewrite Hpages. reflexivity.
Qed.

Lemma extract_hello_world_witness :
  fst (extract_text_from_pdf (fun _ => inr hello_world_pdf) [] None empty_world)
  = inr (lit "--- Página 1 ---" ++ [LF; LF] ++ lit "Hello" ++ [LF; LF]
             ++ lit "--- Página 2 ---" ++ [LF; LF] ++ lit "World",
         []).
Proof.
  apply (@extract_hello_world (fun _ => inr hello_world_pdf) [] None hello_world_pdf
                              empty_world); reflexivity.
Defined.

(** C1 as stated fails: on the example the text is not the one with the
    English word in the header. *)
Lemma hello_world_header_is_not_page :
  fst (extract_text_from_pdf (fun _ => inr hello_world_pdf) [] None empty_world)
  <> inr (lit "--- Page 1 ---" ++ [LF; LF] ++ lit "Hello" ++ [LF; LF]
              ++ lit "--- Page 2 ---" ++ [LF; LF] ++ lit "World",
          []).
Proof. vm_compute. discriminate. Qed.



(** C5.  When no page of an unencrypted document yields text, the extractor
    succeeds with the empty text, and the warnings are one entry per page,
    in page order, followed by the single entry for the empty
    extraction. *)
Theorem extract_no_text
        (pdfplumber_open : bytes -> exn + PDF) (file_bytes : bytes)
        (password : option str) (pdf : PDF) (w : World) :
  pdfplumber_open file_bytes = inr pdf ->
  getattr_is_encrypted pdf = false ->
  Forall (fun p => extract_text p = None) (pages pdf) ->
  fst (extract_text_from_pdf pdfplumber_open file_bytes password w)
  = inr ([], map page_warning (seq 1 (length (pages pdf))) ++ [empty_warning]).
Proof.
  intros Hopen Henc Hnone.
  destruct (extract_granted pdfplumber_open file_bytes password _ w Hopen) as [entries E].
  - unfold granted. rewrite Henc. reflexivity.
  - rewrite E. simpl. unfold document_warnings, document_text.
    rewrite (loop_chunks_none _ _ Hnone), (loop_warnings_none _ Hnone). reflexivity.
Qed.

Lemma extract_no_text_witness :
  fst (extract_text_from_pdf
         (fun _ => inr (mkPDF (Some false) (fun _ => 0%Z) [mkPage None; mkPage None]))
         [] None empty_world)
  = inr ([], map page_warning (seq 1 2) ++ [empty_warning]).
Proof.
  apply (@extract_no_text
           (fun _ => inr (mkPDF (Some false) (fun _ => 0%Z) [mkPage None; mkPage None]))
           [] None (mkPDF (Some false) (fun _ => 0%Z) [mkPage None; mkPage None])
           empty_world).
  - reflexivity.
  - reflexivity.
  - repeat constructor.
Defined.

(** C8.  On a document that is not encrypted the password plays no part:
    with any password the extractor succeeds, and it returns the same pair
    (and leaves the same world) as without one. *)
Theorem password_ignored_when_not_encrypted
        (pdfplumber_open : bytes -> exn + PDF) (file_bytes : bytes)
        (password : str) (pdf : PDF) (w : World) :
  pdfplumber_open file_bytes = inr pdf ->
  getattr_is_encrypted pdf = false ->
  extract_text_from_pdf pdfplumber_open file_bytes (Some password) w
  = extract_text_from_pdf pdfplumber_open file_bytes None w
  /\ exists result,
      fst (extract_text_from_pdf pdfplumber_open file_bytes (Some password) w)
      = inr result.
Proof.
  intros Hopen Henc. split.
  - unfold extract_text_from_pdf, try_except, open_pdf, bind, called, ret.
    cbv beta iota. rewrite Hopen. cbv beta iota. rewrite Henc. reflexivity.
  - destruct (extract_granted pdfplumber_open file_bytes (Some password) _ w Hopen)
      as [entries E].
    + unfold granted. rewrite Henc. reflexivity.
    + rewrite E. eexists; reflexivity.
Qed.

Lemma password_ignored_when_not_encrypted_witness :
  extract_text_from_pdf (fun _ => inr hello_world_pdf) [] (Some (lit "secret"))
                        empty_world
  = extract_text_from_pdf (fun _ => inr hello_world_pdf) [] None empty_world
  /\ exists result,
      fst (extract_text_from_pdf (fun _ => inr hello_world_pdf) []
                                 (Some (lit "secret")) empty_world)
      = inr result.
Proof.
  apply (@password_ignored_when_not_encrypted
           (fun _ => inr hello_world_pdf) [] (lit "secret") hello_world_pdf
           empty_world); reflexivity.
Defined.

(** The outcome of the extractor does not depend on the world it starts
    in. *)
Lemma extract_outcome_world
      (pdfplumber_open : bytes -> exn + PDF) (file_bytes : bytes)
      (password : option str) (w : World) :
  exists entries calls,
    extract_text_from_pdf pdfplumber_open file_bytes password w
    = (extract_outcome pdfplumber_open file_bytes password,
       mkWorld (log_stream w ++ entries) (trace w ++ calls) (screen w)).
Proof.
  unfold extract_outcome.
  destruct (pdfplumber_open file_bytes) as [e|pdf] eqn:Hopen.
  - destruct (extract_unopened pdfplumber_open file_bytes password _ w Hopen) as [? E].
    rewrite E. eauto.
  - destruct (granted pdf password) eqn:Hg.
    + destruct (extract_granted pdfplumber_open file_bytes password _ w Hopen Hg) as [? E].
      rewrite E. eauto.
    + destruct (extract_denied pdfplumber_open file_bytes password _ w Hopen Hg)
        as [? [? [E _]]].
      rewrite E. eauto.
Qed.

Lemma extract_outcome_fst
      (pdfplumber_open : bytes -> exn + PDF) (file_bytes : bytes)
      (password : option str) (w : World) :
  fst (extract_text_from_pdf pdfplumber_open file_bytes password w)
  = extract_outcome pdfplumber_open file_bytes password.
Proof.
  destruct (extract_outcome_world pdfplumber_open file_bytes password w)
    as [? [? E]].
  rewrite E. reflexivity.
Qed.

(** C9.  Two calls on the same buffer with the same password end the same
    way, whatever the log, the trace and the screen hold when each call
    starts: the same text and the same list of warnings, or the same
    exception.  In particular a second call made right after the first one
    repeats its outcome. *)
Theorem extract_deterministic
        (pdfplumber_open : bytes -> exn + PDF) (file_bytes : bytes)
        (password : option str) (w1 w2 : World) :
  fst (extract_text_from_pdf pdfplumber_open file_bytes password w1)
  = fst (extract_text_from_pdf pdfplumber_open file_bytes password w2)
  /\ fst (extract_text_from_pdf pdfplumber_open file_bytes password
            (snd (extract_text_from_pdf pdfplumber_open file_bytes password w1)))
     = fst (extract_text_from_pdf pdfplumber_open file_bytes password w1).
Proof. rewrite !extract_outcome_fst. split; reflexivity. Qed.

(** C10.  A page whose text is the empty string counts as a page with text:
    it gets its header and no warning.  So when each of two or more pages
    returns the empty string, the text is the headers alone (stripped),
    which is not empty, and there is no warning at all. *)
Theorem extract_empty_string_pages
        (pdfplumber_open : bytes -> exn + PDF) (file_bytes : bytes)
        (password : option str) (pdf : PDF) (w : World) :
  pdfplumber_open file_bytes = inr pdf ->
  granted pdf password = true ->
  2 <= length (pages pdf) ->
  Forall (fun p => extract_text p = Some []) (pages pdf) ->
  let headers := strip (concat (map page_header (seq 1 (length (pages pdf))))) in
  fst (extract_text_from_pdf pdfplumber_open file_bytes password w)
  = inr (headers, [])
  /\ headers <> [].
Proof.
  intros Hopen Hg Hlen Hempty headers.
  assert (Hn : (1 <? length (pages pdf)) = true) by (apply Nat.ltb_lt; lia).
  assert (Hne : headers <> []).
  { intros H. apply strip_nil_blank in H.
    destruct (length (pages pdf)) as [|n]; [lia|].
    cbn [seq map concat] in H. rewrite page_header_not_blank in H. discriminate. }
  split; [|exact Hne].
  destruct (extract_granted pdfplumber_open file_bytes password _ w Hopen Hg)
    as [entries E].
  rewrite E. simpl. unfold document_warnings, document_text.
  rewrite (loop_chunks_empty_pages _ _ Hn Hempty).
  rewrite loop_warnings_some.
  - fold headers. destruct headers; [congruence|reflexivity].
  - eapply Forall_impl; [|exact Hempty]. simpl. intros p Hp. congruence.
Qed.

Lemma extract_empty_string_pages_witness :
  let pdf := mkPDF None (fun _ => 0%Z) [mkPage (Some []); mkPage (Some [])] in
  let headers := strip (concat (map page_header (seq 1 2))) in
  fst (extract_text_from_pdf (fun _ => inr pdf) [] None empty_world)
  = inr (headers, [])
  /\ headers <> [].
Proof.
  apply (@extract_empty_string_pages
           (fun _ => inr (mkPDF None (fun _ => 0%Z) [mkPage (Some []); mkPage (Some [])]))
           [] None
           (mkPDF None (fun _ => 0%Z) [mkPage (Some []); mkPage (Some [])])
           empty_world).
  - reflexivity.
  - reflexivity.
  - simpl. lia.
  - repeat constructor.
Defined.

(** ** The matcher on the separator pattern *)

Lemma match_literal (l : str) (p : list item) (s : str) :
  match_here (literal l ++ p) s
  = match strip_prefix l s with
    | Some r => match_here p r
    | None => None
    end.
Proof.
  revert s. induction l as [|c l IH]; intros s; simpl; [reflexivity|].
  destruct s as [|x s]; [reflexivity|].
  destruct (c =? x)%N; [apply IH|reflexivity].
Qed.

(** A greedy star ends where the class ends as soon as the rest of the
    pattern matches there. *)
Lemma star_first (cls : char -> bool) (k : str -> option str) (s r : str) :
  k (skip cls s) = Some r -> star cls k s = Some r.
Proof.
  induction s as [|c s IH]; simpl; [auto|].
  destruct (cls c); [|auto].
  intros H. rewrite (IH H). reflexivity.
Qed.

(** Giving characters back does not help when the rest of the pattern
    cannot start with a character of the class. *)
Lemma star_fail (cls : char -> bool) (k : str -> option str) (s : str) :
  (forall c s', cls c = true -> k (c :: s') = None) ->
  k (skip cls s) = None -> star cls k s = None.
Proof.
  intros Hk. induction s as [|c s IH]; simpl; [auto|].
  destruct (cls c) eqn:Hc; [|auto].
  intros H. rewrite (IH H). apply Hk. exact Hc.
Qed.

Lemma star_skip (cls : char -> bool) (k : str -> option str) (s : str) :
  (forall c s', cls c = true -> k (c :: s') = None) ->
  star cls k s = k (skip cls s).
Proof.
  intros Hk. destruct (k (skip cls s)) as [r|] eqn:E.
  - apply star_first. exact E.
  - apply star_fail; assumption.
Qed.

(** A star in front of a continuation that ignores the class anyway. *)
Lemma star_absorbed (cls : char -> bool) (k : str -> option str) (s : str) :
  (forall c s', cls c = true -> k (c :: s') = k s') ->
  star cls k s = k s.
Proof.
  intros Hk. induction s as [|c s IH]; simpl; [reflexivity|].
  destruct (cls c) eqn:Hc; [|reflexivity].
  rewrite IH, (Hk c s Hc). destruct (k s); reflexivity.
Qed.

Lemma skip_space (s : str) : skip Py_UNICODE_ISSPACE s = lstrip s.
Proof.
  induction s as [|c s IH]; simpl; [reflexivity|].
  rewrite IH. reflexivity.
Qed.

Lemma eqb_LF_space (c : char) : (LF =? c)%N = true -> Py_UNICODE_ISSPACE c = true.
Proof. intros H. apply N.eqb_eq in H. subst c. reflexivity. Qed.

Lemma skip_LF_lstrip (s : str) : skip (N.eqb LF) (lstrip s) = lstrip s.
Proof.
  induction s as [|c s IH]; simpl; [reflexivity|].
  destruct (Py_UNICODE_ISSPACE c) eqn:Hc; [exact IH|].
  cbn [skip]. destruct (LF =? c)%N eqn:E; [|reflexivity].
  apply eqb_LF_space in E. congruence.
Qed.

Lemma marker_post_decimal (c : char) (s : str) :
  Py_UNICODE_ISDECIMAL c = true -> strip_prefix marker_post (c :: s) = None.
Proof.
  intros H. simpl. destruct (32 =? c)%N eqn:E; [|reflexivity].
  apply N.eqb_eq in E. subst c. discriminate.
Qed.

Lemma marker_at_space (c : char) (s : str) :
  Py_UNICODE_ISSPACE c = true -> marker_at (c :: s) = None.
Proof.
  intros H. unfold marker_at. simpl. destruct (45 =? c)%N eqn:E; [|reflexivity].
  apply N.eqb_eq in E. subst c. discriminate.
Qed.

Lemma marker_at_lstrip (s r : str) : marker_at s = Some r -> lstrip s = s.
Proof.
  destruct s as [|c s]; [reflexivity|]. intros H. simpl.
  destruct (Py_UNICODE_ISSPACE c) eqn:Hc; [|reflexivity].
  rewrite (marker_at_space c s Hc) in H. discriminate.
Qed.

(** The backtracking matcher on the marker is [marker_at]. *)
Lemma marker_at_correct (s : str) : match_here marker_pattern s = marker_at s.
Proof.
  unfold marker_pattern, marker_at.
  change (lit "--- Página ") with marker_pre.
  change (lit " ---") with marker_post.
  rewrite match_literal.
  destruct (strip_prefix marker_pre s) as [[|d s1]|]; try reflexivity.
  cbn [app match_here].
  destruct (Py_UNICODE_ISDECIMAL d); [|reflexivity].
  rewrite star_skip.
  - rewrite <- (app_nil_r (literal marker_post)), match_literal.
    destruct (strip_prefix marker_post _); reflexivity.
  - intros c s' Hc.
    rewrite <- (app_nil_r (literal marker_post)), match_literal.
    rewrite (marker_post_decimal c s' Hc). reflexivity.
Qed.

(** On the separator pattern the matcher skips the white space, reads a
    marker and skips the white space after it. *)
Lemma separator_at (s : str) :
  match_here separator_pattern s
  = match marker_at (lstrip s) with
    | Some r => Some (lstrip r)
    | None => None
    end.
Proof.
  unfold separator_pattern.
  change (lit "--- Página ") with marker_pre.
  change (lit " ---") with marker_post.
  cbn [app match_here].
  set (tail := [Star Py_UNICODE_ISSPACE; Star (N.eqb LF)]).
  assert (Htail : forall r, match_here tail r = Some (lstrip r)).
  { intros r. unfold tail. cbn [match_here].
    apply star_first. rewrite skip_space.
    apply star_first. cbn [match_here]. rewrite skip_LF_lstrip. reflexivity. }
  set (post := match_here (literal marker_post ++ tail)).
  assert (Hpost : forall r, post r = match strip_prefix marker_post r with
                                     | Some r' => Some (lstrip r')
                                     | None => None
                                     end).
  { intros r. unfold post. rewrite match_literal.
    destruct (strip_prefix marker_post r); [apply Htail|reflexivity]. }
  set (core := match_here (literal marker_pre ++ Plus Py_UNICODE_ISDECIMAL
                                   :: literal marker_post ++ tail)).
  assert (Hcore : forall r, core r = match marker_at r with
                                     | Some r' => Some (lstrip r')
                                     | None => None
                                     end).
  { intros r. unfold core, marker_at. rewrite match_literal.
    destruct (strip_prefix marker_pre r) as [[|d s1]|]; try reflexivity.
    cbn [match_here]. destruct (Py_UNICODE_ISDECIMAL d); [|reflexivity].
    fold post. rewrite star_skip.
    - apply Hpost.
    - intros c s' Hc. rewrite Hpost, (marker_post_decimal c s' Hc). reflexivity. }
  rewrite star_absorbed.
  - rewrite star_skip.
    + rewrite skip_space. apply Hcore.
    + intros c s' Hc. rewrite Hcore, (marker_at_space c s' Hc). reflexivity.
  - intros c s' Hc. apply eqb_LF_space in Hc.
    rewrite !star_skip.
    + rewrite !skip_space. simpl. rewrite Hc. reflexivity.
    + intros c0 s0 H0. rewrite Hcore, (marker_at_space c0 s0 H0). reflexivity.
    + intros c0 s0 H0. rewrite Hcore, (marker_at_space c0 s0 H0). reflexivity.
Qed.

(** ** Scanning with the separator pattern *)

(** The defining equations of [re_split] and [re_sub], without the proofs
    they carry. *)
Lemma re_split_eq (p : list item) (s : str) :
  re_split p s
  = match match_here p s with
    | Some rest =>
      if lt_dec (length rest) (length s) then [] :: re_split p rest
      else match s with
           | [] => [[]; []]
           | c :: s' => [] :: cons_head c (re_split p s')
           end
    | None =>
      match s with
      | [] => [[]]
      | c :: s' => cons_head c (re_split p s')
      end
    end.
Proof.
  funelim (re_split p s).
  - rewrite e. destruct (lt_dec (length rest) (length s)); [reflexivity|contradiction].
  - rewrite e. destruct (lt_dec (length rest) (@length char [])); [contradiction|reflexivity].
  - rewrite e. destruct (lt_dec (length rest) (length (c :: s'))); [contradiction|reflexivity].
  - rewrite e. reflexivity.
  - rewrite e. reflexivity.
Qed.

Lemma re_sub_eq (p : list item) (repl s : str) :
  re_sub p repl s
  = match match_here p s with
    | Some rest =>
      if lt_dec (length rest) (length s) then repl ++ re_sub p repl rest
      else match s with
           | [] => repl
           | c :: s' => repl ++ c :: re_sub p repl s'
           end
    | None =>
      match s with
      | [] => []
      | c :: s' => c :: re_sub p repl s'
      end
    end.
Proof.
  funelim (re_sub p repl s).
  - rewrite e. destruct (lt_dec (length rest) (length s)); [reflexivity|contradiction].
  - rewrite e. destruct (lt_dec (length rest) (@length char [])); [contradiction|reflexivity].
  - rewrite e. destruct (lt_dec (length rest) (length (c :: s'))); [contradiction|reflexivity].
  - rewrite e. reflexivity.
  - rewrite e. reflexivity.
Qed.

Lemma strip_prefix_length (l s r : str) :
  strip_prefix l s = Some r -> length s = length l + length r.
Proof.
  revert s. induction l as [|c l IH]; intros s; simpl.
  - intros H; inversion H; reflexivity.
  - destruct s as [|x s]; [discriminate|].
    destruct (c =? x)%N; [|discriminate].
    intros H. simpl. rewrite (IH _ H). reflexivity.
Qed.

Lemma skip_length (cls : char -> bool) (s : str) : length (skip cls s) <= length s.
Proof.
  induction s as [|c s IH]; simpl; [lia|].
  destruct (cls c); simpl; lia.
Qed.

Lemma lstrip_length (s : str) : length (lstrip s) <= length s.
Proof. rewrite <- skip_space. apply skip_length. Qed.

Lemma marker_at_length (s r : str) : marker_at s = Some r -> length r < length s.
Proof.
  unfold marker_at.
  destruct (strip_prefix marker_pre s) as [[|d s1]|] eqn:E; try discriminate.
  destruct (Py_UNICODE_ISDECIMAL d); [|discriminate].
  intros H. apply strip_prefix_length in E. apply strip_prefix_length in H.
  pose proof (skip_length Py_UNICODE_ISDECIMAL s1). simpl in *. lia.
Qed.

(** A separator is never empty: the scan always moves on past a match. *)
Lemma separator_consumes (s rest : str) :
  match_here separator_pattern s = Some rest -> length rest < length s.
Proof.
  rewrite separator_at.
  destruct (marker_at (lstrip s)) as [r|] eqn:E; [|discriminate].
  intros H; inversion H; subst rest.
  apply marker_at_length in E.
  pose proof (lstrip_length s). pose proof (lstrip_length r). lia.
Qed.

Lemma split_hit (s r : str) :
  marker_at (lstrip s) = Some r ->
  re_split separator_pattern s = [] :: re_split separator_pattern (lstrip r).
Proof.
  intros H. rewrite re_split_eq.
  assert (E : match_here separator_pattern s = Some (lstrip r))
    by (rewrite separator_at, H; reflexivity).
  rewrite E. destruct (lt_dec _ _) as [_|n]; [reflexivity|].
  exfalso. apply n. apply separator_consumes. exact E.
Qed.

Lemma split_miss (c : char) (s : str) :
  marker_at (lstrip (c :: s)) = None ->
  re_split separator_pattern (c :: s)
  = cons_head c (re_split separator_pattern s).
Proof.
  intros H. rewrite re_split_eq, separator_at, H. reflexivity.
Qed.

Lemma split_nil : re_split separator_pattern [] = [[]].
Proof. rewrite re_split_eq. reflexivity. Qed.

Lemma re_split_not_nil (p : list item) (s : str) : re_split p s <> [].
Proof.
  rewrite re_split_eq.
  destruct (match_here p s) as [rest|].
  - destruct (lt_dec _ _); [discriminate|]. destruct s; discriminate.
  - destruct s as [|c s]; [discriminate|].
    unfold cons_head. destruct (re_split p s); discriminate.
Qed.

Lemma join_cons_head (sep : str) (c : char) (segs : list str) :
  segs <> [] -> join sep (cons_head c segs) = c :: join sep segs.
Proof.
  destruct segs as [|h [|h' t]]; [congruence| |]; intros _; reflexivity.
Qed.

Lemma join_nil_cons (sep : str) (segs : list str) :
  segs <> [] -> join sep ([] :: segs) = sep ++ join sep segs.
Proof. destruct segs; [congruence|]. intros _; reflexivity. Qed.

(** Substituting is splitting and joining again with the replacement. *)
Lemma re_sub_join (p : list item) (repl : str) (s : str) :
  re_sub p repl s = join repl (re_split p s).
Proof.
  remember (length s) as n eqn:Hn. revert s Hn.
  induction n as [n IH] using lt_wf_ind. intros s Hn.
  rewrite re_sub_eq, re_split_eq.
  destruct (match_here p s) as [rest|].
  - destruct (lt_dec (length rest) (length s)) as [Hlt|_].
    + rewrite join_nil_cons by apply re_split_not_nil.
      rewrite (IH (length rest)); [reflexivity|lia|reflexivity].
    + destruct s as [|c s]; [simpl; rewrite app_nil_r; reflexivity|].
      assert (Hcons : cons_head c (re_split p s) <> []).
      { unfold cons_head. destruct (re_split p s); discriminate. }
      rewrite (join_nil_cons _ _ Hcons).
      rewrite join_cons_head by apply re_split_not_nil.
      rewrite (IH (length s)); [reflexivity|simpl in Hn; lia|reflexivity].
  - destruct s as [|c s]; [reflexivity|].
    rewrite join_cons_head by apply re_split_not_nil.
    rewrite (IH (length s)); [reflexivity|simpl in Hn; lia|reflexivity].
Qed.

(** ** Markers and the text around them *)

Lemma strip_prefix_app (l v r y : str) :
  strip_prefix l v = Some r -> strip_prefix l (v ++ y) = Some (r ++ y).
Proof.
  revert v. induction l as [|c l IH]; intros v; simpl.
  - intros H; inversion H; reflexivity.
  - destruct v as [|x v]; [discriminate|]. simpl.
    destruct (c =? x)%N; [apply IH|discriminate].
Qed.

Lemma strip_prefix_self (l y : str) : strip_prefix l (l ++ y) = Some y.
Proof.
  induction l as [|c l IH]; simpl; [reflexivity|].
  rewrite N.eqb_refl. exact IH.
Qed.

(** A literal without line feed does not reach across a line feed. *)
Lemma strip_prefix_LF (l v y r : str) :
  ~ In LF l ->
  strip_prefix l (v ++ LF :: y) = Some r ->
  exists r', strip_prefix l v = Some r' /\ r = r' ++ LF :: y.
Proof.
  revert v. induction l as [|c l IH]; intros v Hl; simpl.
  - intros H; inversion H. exists v. split; reflexivity.
  - destruct v as [|x v]; simpl.
    + destruct (c =? LF)%N eqn:E; [|discriminate].
      apply N.eqb_eq in E. exfalso. apply Hl. left. exact E.
    + destruct (c =? x)%N; [|discriminate].
      apply IH. intros H. apply Hl. right. exact H.
Qed.

Lemma skip_app (cls : char -> bool) (s y : str) :
  skip cls s <> [] -> skip cls (s ++ y) = skip cls s ++ y.
Proof.
  induction s as [|c s IH]; simpl; [congruence|].
  destruct (cls c); [exact IH|reflexivity].
Qed.

Lemma skip_decimal_LF (s y : str) :
  skip Py_UNICODE_ISDECIMAL (s ++ LF :: y)
  = skip Py_UNICODE_ISDECIMAL s ++ LF :: y.
Proof.
  induction s as [|c s IH]; simpl; [reflexivity|].
  destruct (Py_UNICODE_ISDECIMAL c); [exact IH|reflexivity].
Qed.

Lemma marker_pre_no_LF : ~ In LF marker_pre.
Proof. intros H. repeat (destruct H as [H|H]; [discriminate|]). exact H. Qed.

Lemma marker_post_no_LF : ~ In LF marker_post.
Proof. intros H. repeat (destruct H as [H|H]; [discriminate|]). exact H. Qed.

(** A marker read at the start of [v] is read the same way whatever
    follows [v]. *)
Lemma marker_at_app (v r y : str) :
  marker_at v = Some r -> marker_at (v ++ y) = Some (r ++ y).
Proof.
  unfold marker_at.
  destruct (strip_prefix marker_pre v) as [[|d s1]|] eqn:E; try discriminate.
  rewrite (strip_prefix_app _ _ _ y E). cbn [app].
  destruct (Py_UNICODE_ISDECIMAL d); [|discriminate].
  intros H. rewrite skip_app.
  - apply strip_prefix_app. exact H.
  - intros Hnil. rewrite Hnil in H. discriminate.
Qed.

(** A marker holds no line feed: one read at the start of [v ++ LF :: y]
    ends inside [v]. *)
Lemma marker_at_LF (v y r : str) :
  marker_at (v ++ LF :: y) = Some r ->
  exists r', marker_at v = Some r' /\ r = r' ++ LF :: y.
Proof.
  unfold marker_at.
  destruct (strip_prefix marker_pre (v ++ LF :: y)) as [[|d s1]|] eqn:E;
    try discriminate.
  apply (strip_prefix_LF _ _ _ _ marker_pre_no_LF) in E.
  destruct E as [r1 [E1 E2]]. rewrite E1.
  destruct r1 as [|d1 r1]; simpl in E2.
  - inversion E2; subst d s1. discriminate.
  - inversion E2; subst d s1.
    destruct (Py_UNICODE_ISDECIMAL d1); [|discriminate].
    rewrite skip_decimal_LF. intros H.
    apply (strip_prefix_LF _ _ _ _ marker_post_no_LF) in H. exact H.
Qed.

Lemma occurs_eq (p : list item) (s : str) :
  occurs p s = match match_here p s with
               | Some _ => true
               | None => match s with
                         | [] => false
                         | _ :: s' => occurs p s'
                         end
               end.
Proof. destruct s; reflexivity. Qed.

Lemma has_marker_eq (s : str) :
  has_marker s = match marker_at s with
                 | Some _ => true
                 | None => match s with
                           | [] => false
                           | _ :: s' => has_marker s'
                           end
                 end.
Proof. unfold has_marker. rewrite occurs_eq, marker_at_correct. reflexivity. Qed.

Lemma no_marker_head (s : str) : has_marker s = false -> marker_at s = None.
Proof.
  rewrite has_marker_eq. destruct (marker_at s); [discriminate|reflexivity].
Qed.

Lemma no_marker_tail (c : char) (s : str) :
  has_marker (c :: s) = false -> has_marker s = false.
Proof.
  rewrite has_marker_eq. destruct (marker_at (c :: s)); [discriminate|auto].
Qed.

Lemma no_marker_suffix (a b : str) : has_marker (a ++ b) = false -> has_marker b = false.
Proof.
  induction a as [|c a IH]; simpl; [auto|].
  intros H. apply IH. apply (no_marker_tail c). exact H.
Qed.

Lemma no_marker_prefix (a b : str) : has_marker (a ++ b) = false -> has_marker a = false.
Proof.
  induction a as [|c a IH]; [reflexivity|]. simpl. intros H.
  rewrite has_marker_eq.
  destruct (marker_at (c :: a)) as [r|] eqn:E.
  - apply (marker_at_app _ _ b) in E. simpl in E.
    apply no_marker_head in H. congruence.
  - apply IH. apply (no_marker_tail c). exact H.
Qed.

Lemma no_marker_space (c : char) (s : str) :
  Py_UNICODE_ISSPACE c = true -> has_marker (c :: s) = has_marker s.
Proof.
  intros H. rewrite (has_marker_eq (c :: s)), (marker_at_space c s H). reflexivity.
Qed.

Lemma lstrip_suffix (s : str) : exists a, s = a ++ lstrip s /\ blank a = true.
Proof.
  induction s as [|c s [a [E B]]]; simpl.
  - exists []. split; reflexivity.
  - destruct (Py_UNICODE_ISSPACE c) eqn:Hc.
    + exists (c :: a). simpl. rewrite Hc, B. split; [congruence|reflexivity].
    + exists []. split; reflexivity.
Qed.

Lemma rstrip_prefix (s : str) : exists b, s = rstrip s ++ b /\ blank b = true.
Proof.
  induction s as [|c s [b [E B]]]; simpl.
  - exists []. split; reflexivity.
  - destruct (rstrip s) as [|x r] eqn:R.
    + destruct (Py_UNICODE_ISSPACE c) eqn:Hc.
      * exists (c :: b). simpl in *. rewrite Hc, B. split; [congruence|reflexivity].
      * exists b. simpl in *. split; [congruence|exact B].
    + exists b. split; [simpl in *; congruence|exact B].
Qed.

Lemma no_marker_lstrip (s : str) : has_marker s = false -> has_marker (lstrip s) = false.
Proof.
  destruct (lstrip_suffix s) as [a [E _]]. intros H.
  rewrite E in H. apply no_marker_suffix in H. exact H.
Qed.

Lemma no_marker_rstrip (s : str) : has_marker s = false -> has_marker (rstrip s) = false.
Proof.
  destruct (rstrip_prefix s) as [b [E _]]. intros H.
  rewrite E in H. apply no_marker_prefix in H. exact H.
Qed.

Lemma no_marker_strip (s : str) : has_marker s = false -> has_marker (strip s) = false.
Proof. intros H. apply no_marker_rstrip, no_marker_lstrip, H. Qed.

Lemma rstrip_cons (c : char) (s : str) :
  blank (c :: s) = false -> rstrip (c :: s) = c :: rstrip s.
Proof.
  simpl. destruct (rstrip s) as [|x r] eqn:R; [|reflexivity].
  apply rstrip_nil_blank in R. rewrite R, andb_true_r.
  intros H; rewrite H; reflexivity.
Qed.

Lemma rstrip_app_end (a : str) (c : char) (b : str) :
  Py_UNICODE_ISSPACE c = false -> rstrip (a ++ c :: b) = a ++ c :: rstrip b.
Proof.
  intros Hc.
  assert (Hcb : rstrip (c :: b) = c :: rstrip b)
    by (apply rstrip_cons; simpl; rewrite Hc; reflexivity).
  induction a as [|x a IH]; [exact Hcb|].
  change ((x :: a) ++ c :: b) with (x :: (a ++ c :: b)).
  cbn [rstrip]. rewrite IH.
  destruct a; reflexivity.
Qed.

Lemma lstrip_app (a b : str) : blank a = false -> lstrip (a ++ b) = lstrip a ++ b.
Proof.
  induction a as [|c a IH]; simpl; [discriminate|].
  destruct (Py_UNICODE_ISSPACE c); [exact IH|reflexivity].
Qed.

Lemma lstrip_rstrip (s : str) : lstrip (rstrip s) = strip s.
Proof.
  unfold strip. induction s as [|c s IH]; [reflexivity|].
  destruct (blank (c :: s)) eqn:B.
  - rewrite (rstrip_blank _ B), (lstrip_blank _ B). reflexivity.
  - rewrite (rstrip_cons _ _ B). simpl in B. simpl.
    destruct (Py_UNICODE_ISSPACE c) eqn:Hc; simpl in B.
    + exact IH.
    + symmetry. apply rstrip_cons. simpl. rewrite Hc. reflexivity.
Qed.

Lemma strip_nil_iff (s : str) : is_empty (strip s) = blank s.
Proof.
  destruct (blank s) eqn:B.
  - rewrite (strip_blank _ B). reflexivity.
  - destruct (strip s) eqn:E; [|reflexivity].
    apply strip_nil_blank in E. congruence.
Qed.

Lemma strip_LF (s : str) : strip (LF :: s) = strip s.
Proof. reflexivity. Qed.

(** A clean text splits into itself. *)
Lemma split_no_marker (t : str) :
  has_marker t = false -> re_split separator_pattern t = [t].
Proof.
  induction t as [|c t IH]; intros H; [apply split_nil|].
  rewrite split_miss.
  - rewrite IH by (apply (no_marker_tail c), H). reflexivity.
  - apply no_marker_head, no_marker_lstrip, H.
Qed.

(** Scanning a clean text [t] that is followed by a line feed, more white
    space and a marker: the piece is [t] without its trailing white space,
    and the scan goes on after the marker and the white space behind it. *)
Lemma split_text_then_marker (t w x r : str) :
  has_marker t = false ->
  blank w = true ->
  marker_at x = Some r ->
  re_split separator_pattern (t ++ LF :: w ++ x)
  = rstrip t :: re_split separator_pattern (lstrip r).
Proof.
  intros Ht Hw Hx.
  assert (Hgap : lstrip (LF :: w ++ x) = x).
  { change (lstrip (LF :: w ++ x)) with (lstrip (w ++ x)).
    rewrite (lstrip_app_blank _ _ Hw). apply (marker_at_lstrip _ _ Hx). }
  induction t as [|c t IH].
  - simpl app. rewrite (split_hit _ r); [reflexivity|].
    rewrite Hgap. exact Hx.
  - destruct (blank (c :: t)) eqn:B.
    + rewrite (rstrip_blank _ B).
      apply split_hit. rewrite (lstrip_app_blank _ _ B), Hgap. exact Hx.
    + change ((c :: t) ++ LF :: w ++ x) with (c :: (t ++ LF :: w ++ x)).
      rewrite split_miss.
      * rewrite IH by (apply (no_marker_tail c), Ht).
        rewrite (rstrip_cons _ _ B). reflexivity.
      * change (c :: (t ++ LF :: w ++ x)) with ((c :: t) ++ LF :: w ++ x).
        rewrite (lstrip_app _ _ B).
        destruct (marker_at (lstrip (c :: t) ++ LF :: w ++ x)) as [r0|] eqn:E;
          [|reflexivity].
        apply marker_at_LF in E. destruct E as [r' [E _]].
        apply no_marker_lstrip, no_marker_head in Ht. congruence.
Qed.

Lemma chars_of_uint_decimal (d : Decimal.uint) :
  forallb Py_UNICODE_ISDECIMAL (chars_of_uint d) = true.
Proof. induction d; simpl; try rewrite IHd; reflexivity. Qed.

Lemma str_of_nat_not_nil (n : nat) : str_of_nat n <> [].
Proof.
  unfold str_of_nat. intros H.
  assert (E : Nat.to_uint n = Decimal.Nil)
    by (destruct (Nat.to_uint n); simpl in H; try discriminate; reflexivity).
  pose proof (Unsigned.of_to n) as R. rewrite E in R. simpl in R. subst n.
  discriminate.
Qed.

Lemma skip_decimal_digits (ds y : str) :
  forallb Py_UNICODE_ISDECIMAL ds = true ->
  skip Py_UNICODE_ISDECIMAL (ds ++ marker_post ++ y) = marker_post ++ y.
Proof.
  induction ds as [|d ds IH]; simpl; [reflexivity|].
  intros H. apply andb_prop in H. destruct H as [Hd Hds].
  rewrite Hd. auto.
Qed.

(** The marker of a header is read as a marker. *)
Lemma marker_at_header (i : nat) (y : str) :
  marker_at (marker_pre ++ str_of_nat i ++ marker_post ++ y) = Some y.
Proof.
  unfold marker_at. rewrite strip_prefix_self.
  pose proof (str_of_nat_not_nil i) as Hne.
  pose proof (chars_of_uint_decimal (Nat.to_uint i)) as Hd.
  fold (str_of_nat i) in Hd.
  destruct (str_of_nat i) as [|d ds]; [congruence|].
  simpl in Hd. apply andb_prop in Hd. destruct Hd as [Hd Hds].
  cbn [app]. rewrite Hd, (skip_decimal_digits _ _ Hds).
  apply strip_prefix_self.
Qed.

Lemma page_header_eq (i : nat) (y : str) :
  page_header i ++ y
  = LF :: LF :: marker_pre ++ str_of_nat i ++ marker_post ++ LF :: LF :: y.
Proof.
  unfold page_header.
  change (lit "--- Página ") with marker_pre.
  change (lit " ---") with marker_post.
  cbn [app]. rewrite <- !app_assoc. reflexivity.
Qed.

Lemma rstrip_after_marker (a y : str) :
  rstrip (a ++ marker_post ++ y) = a ++ marker_post ++ rstrip y.
Proof.
  change (marker_post ++ y) with ([32; 45; 45]%N ++ 45%N :: y).
  change (marker_post ++ rstrip y) with ([32; 45; 45]%N ++ 45%N :: rstrip y).
  rewrite !app_assoc. apply rstrip_app_end. reflexivity.
Qed.

Lemma page_texts_cons (p : Page) (ps : list Page) :
  page_texts (p :: ps)
  = match extract_text p with
    | Some t => t :: page_texts ps
    | None => page_texts ps
    end.
Proof. unfold page_texts. simpl. destruct (extract_text p); reflexivity. Qed.

(** The pieces of a document with headers: after any clean text [g], the
    chunks of the pages split into [g] and the page texts, each stripped. *)
Lemma split_chunks (n : nat) (ps : list Page) :
  (1 <? n) = true ->
  Forall (fun t => has_marker t = false) (page_texts ps) ->
  forall (g : str) (i : nat),
    has_marker g = false ->
    re_split separator_pattern
             (lstrip (rstrip (g ++ concat (loop_chunks n i ps))))
    = map strip (g :: page_texts ps).
Proof.
  intros Hn. induction ps as [|p ps IH]; intros Hclean g i Hg.
  - simpl. rewrite app_nil_r, lstrip_rstrip.
    apply split_no_marker, no_marker_strip, Hg.
  - rewrite page_texts_cons in *. cbn [loop_chunks].
    destruct (extract_text p) as [t|]; [|apply IH; assumption].
    inversion Hclean as [|? ? Ht Hrest]; subst.
    rewrite Hn. cbn [concat]. rewrite <- app_assoc, page_header_eq.
    set (y := LF :: LF :: t ++ concat (loop_chunks n (S i) ps)).
    set (x := marker_pre ++ str_of_nat i ++ marker_post ++ rstrip y).
    assert (Hx : marker_at x = Some (rstrip y)) by apply marker_at_header.
    assert (Hr : rstrip (g ++ LF :: LF :: marker_pre ++ str_of_nat i ++ marker_post ++ y)
                 = g ++ LF :: [LF] ++ x).
    { change (g ++ LF :: LF :: marker_pre ++ str_of_nat i ++ marker_post ++ y)
        with (g ++ (LF :: LF :: marker_pre ++ str_of_nat i) ++ marker_post ++ y).
      rewrite app_assoc, rstrip_after_marker, <- app_assoc. reflexivity. }
    rewrite Hr.
    assert (Hy : re_split separator_pattern (lstrip (rstrip y))
                 = strip t :: map strip (page_texts ps)).
    { specialize (IH Hrest (LF :: LF :: t) (S i)).
      change ((LF :: LF :: t) ++ concat (loop_chunks n (S i) ps)) with y in IH.
      rewrite IH; [reflexivity|].
      rewrite !no_marker_space by reflexivity. exact Ht. }
    cbn [map]. rewrite <- Hy.
    destruct (blank g) eqn:B.
    + rewrite (strip_blank _ B).
      apply split_hit.
      rewrite (lstrip_app_blank _ _ B).
      change (lstrip (LF :: [LF] ++ x)) with (lstrip x).
      rewrite (marker_at_lstrip _ _ Hx), (marker_at_lstrip _ _ Hx). exact Hx.
    + rewrite (lstrip_app _ _ B).
      rewrite (split_text_then_marker (lstrip g) [LF] x (rstrip y));
        [ | apply no_marker_lstrip, Hg | reflexivity | exact Hx].
      reflexivity.
Qed.

(** ** Claims on the separators *)

Lemma loop_chunks_no_header (n : nat) (ps : list Page) :
  (1 <? n) = false -> forall i, loop_chunks n i ps = page_texts ps.
Proof.
  intros Hn. induction ps as [|p ps IH]; intros i; [reflexivity|].
  rewrite page_texts_cons. cbn [loop_chunks].
  destruct (extract_text p); rewrite IH, ?Hn; reflexivity.
Qed.

Lemma page_texts_length (ps : list Page) : length (page_texts ps) <= length ps.
Proof.
  induction ps as [|p ps IH]; [reflexivity|].
  rewrite page_texts_cons. destruct (extract_text p); simpl; lia.
Qed.

Lemma filter_length_le {A : Type} (f : A -> bool) (l : list A) :
  length (filter f l) <= length l.
Proof. induction l as [|a l IH]; simpl; [lia|]. destruct (f a); simpl; lia. Qed.

Lemma filter_strip_length (ts : list str) :
  length (filter (fun piece => negb (is_empty piece)) (map strip ts))
  = length (filter (fun t => negb (blank t)) ts).
Proof.
  induction ts as [|t ts IH]; [reflexivity|].
  cbn [map filter]. rewrite strip_nil_iff.
  destruct (blank t); simpl; rewrite IH; reflexivity.
Qed.

(** With two pages or more, and no marker in the pages' own texts, the text
    of the document splits into an empty first piece and the page texts,
    each stripped. *)
Lemma split_document_text (pdf : PDF) :
  2 <= length (pages pdf) ->
  Forall (fun t => has_marker t = false) (page_texts (pages pdf)) ->
  re_split separator_pattern (document_text pdf)
  = [] :: map strip (page_texts (pages pdf)).
Proof.
  intros Hlen Hclean. unfold document_text. rewrite <- lstrip_rstrip.
  assert (Hn : (1 <? length (pages pdf)) = true) by (apply Nat.ltb_lt; lia).
  apply (split_chunks _ _ Hn Hclean [] 1). reflexivity.
Qed.

Lemma document_text_one_page (pdf : PDF) (page : Page) :
  pages pdf = [page] ->
  document_text pdf
  = strip (match extract_text page with Some t => t | None => [] end).
Proof.
  intros Hp. unfold document_text. rewrite Hp. cbn [loop_chunks length Nat.ltb Nat.leb].
  destruct (extract_text page); [|reflexivity].
  cbn [concat app]. rewrite app_nil_r. reflexivity.
Qed.

(** C4, as amended.  On an unencrypted document with at least one page the
    extractor succeeds.  When no page's own text holds a marker line, the
    non-empty pieces of the returned text, split on the separators, are as
    many as the pages whose text holds a character that is not white space,
    hence at most as many as the pages. *)
Theorem segments_count
        (pdfplumber_open : bytes -> exn + PDF) (file_bytes : bytes)
        (password : option str) (pdf : PDF) (w : World) :
  pdfplumber_open file_bytes = inr pdf ->
  getattr_is_encrypted pdf = false ->
  1 <= length (pages pdf) ->
  exists text warnings,
    fst (extract_text_from_pdf pdfplumber_open file_bytes password w)
    = inr (text, warnings)
    /\ (Forall (fun t => has_marker t = false) (page_texts (pages pdf)) ->
        length (segments text)
        = length (filter (fun t => negb (blank t)) (page_texts (pages pdf)))
        /\ length (segments text) <= length (pages pdf)).
Proof.
  intros Hopen Henc Hlen.
  destruct (extract_granted pdfplumber_open file_bytes password _ w Hopen)
    as [entries E].
  { unfold granted. rewrite Henc. reflexivity. }
  exists (document_text pdf), (document_warnings pdf).
  rewrite E. split; [reflexivity|]. intros Hclean.
  assert (Hcount : length (segments (document_text pdf))
                   = length (filter (fun t => negb (blank t))
                                    (page_texts (pages pdf)))).
  { destruct (le_lt_dec 2 (length (pages pdf))) as [H2|H1].
    - unfold segments. rewrite (split_document_text pdf H2 Hclean).
      cbn [filter is_empty negb]. apply filter_strip_length.
    - destruct (pages pdf) as [|page [|page' ps]] eqn:Hp; cbn [length] in *; try lia.
      unfold segments. rewrite (document_text_one_page pdf page Hp).
      rewrite page_texts_cons in Hclean. rewrite page_texts_cons.
      destruct (extract_text page) as [t|].
      + inversion Hclean; subst.
        rewrite split_no_marker by (apply no_marker_strip; assumption).
        cbn [filter page_texts flat_map]. rewrite strip_nil_iff.
        destruct (blank t); reflexivity.
      + rewrite split_no_marker by reflexivity. reflexivity. }
  split; [exact Hcount|]. rewrite Hcount.
  etransitivity; [apply filter_length_le|apply page_texts_length].
Qed.

Lemma segments_count_witness :
  exists text warnings,
    fst (extract_text_from_pdf (fun _ => inr hello_world_pdf) [] None empty_world)
    = inr (text, warnings)
    /\ (Forall (fun t => has_marker t = false) (page_texts (pages hello_world_pdf)) ->
        length (segments text)
        = length (filter (fun t => negb (blank t)) (page_texts (pages hello_world_pdf)))
        /\ length (segments text) <= length (pages hello_world_pdf)).
Proof.
  apply (segments_count (fun _ => inr hello_world_pdf) [] None hello_world_pdf
                        empty_world).
  - reflexivity.
  - reflexivity.
  - simpl. lia.
Defined.

(** C4 as stated fails.  A single page whose text quotes a header gives two
    pieces for one page; and of two pages with the texts "x" and " ", both
    non-empty, only one piece is left. *)
Lemma quoting_and_blank_pages_miscount :
  (exists text warnings,
      fst (extract_text_from_pdf (fun _ => inr quoting_pdf) [] None empty_world)
      = inr (text, warnings)
      /\ length (pages quoting_pdf) = 1
      /\ length (segments text) = 2
      /\ ~ length (segments text) <= length (pages quoting_pdf))
  /\ (exists text warnings,
         fst (extract_text_from_pdf (fun _ => inr blank_page_pdf) [] None empty_world)
         = inr (text, warnings)
         /\ length (filter (fun t => negb (is_empty t))
                           (page_texts (pages blank_page_pdf))) = 2
         /\ length (segments text) = 1
         /\ length (segments text)
            <> length (filter (fun t => negb (is_empty t))
                              (page_texts (pages blank_page_pdf)))).
Proof.
  split; do 2 eexists; (split; [vm_compute; reflexivity|]);
    (split; [vm_compute; reflexivity|]);
    (split; [vm_compute; reflexivity|]); vm_compute; lia.
Qed.

Lemma join_LF_strip (ts : list str) :
  strip (join [LF] ([] :: ts)) = strip (join [LF] ts).
Proof. destruct ts; reflexivity. Qed.

(** C3, as amended.  After a successful extraction from a document of two
    pages or more whose own texts hold no marker line, removing the
    separators leaves the page texts, each stripped of the white space
    around it, joined by single line feeds (and the whole stripped).  It is
    not the plain concatenation of the page texts that an extraction
    without headers gives. *)
Theorem remove_separators_document
        (pdfplumber_open : bytes -> exn + PDF) (file_bytes : bytes)
        (password : option str) (pdf : PDF) (w : World) :
  pdfplumber_open file_bytes = inr pdf ->
  granted pdf password = true ->
  2 <= length (pages pdf) ->
  Forall (fun t => has_marker t = false) (page_texts (pages pdf)) ->
  exists text warnings,
    fst (extract_text_from_pdf pdfplumber_open file_bytes password w)
    = inr (text, warnings)
    /\ displayed_text false text
       = strip (join [LF] (map strip (page_texts (pages pdf))))
    /\ has_marker (displayed_text false text) = false.
Proof.
  intros Hopen Hg Hlen Hclean.
  destruct (extract_granted pdfplumber_open file_bytes password _ w Hopen Hg)
    as [entries E].
  exists (document_text pdf), (document_warnings pdf).
  rewrite E. split; [reflexivity|].
  assert (Heq : displayed_text false (document_text pdf)
                = strip (join [LF] (map strip (page_texts (pages pdf))))).
  { unfold displayed_text, remove_separators.
    rewrite re_sub_join, (split_document_text pdf Hlen Hclean).
    apply join_LF_strip. }
  split; [exact Heq|].
  rewrite Heq. apply no_marker_strip.
  clear - Hclean. induction Hclean as [|t ts Ht _ IH]; [reflexivity|].
  cbn [map]. destruct ts as [|t' ts].
  - simpl. apply no_marker_strip, Ht.
  - change (join [LF] (strip t :: map strip (t' :: ts)))
      with (strip t ++ LF :: join [LF] (map strip (t' :: ts))).
    apply no_marker_strip in Ht.
    revert Ht IH. generalize (join [LF] (map strip (t' :: ts))) as rest.
    generalize (strip t) as a. clear.
    induction a as [|c a IHa]; intros rest Ha Hrest.
    + simpl. rewrite no_marker_space by reflexivity. exact Hrest.
    + change ((c :: a) ++ LF :: rest) with (c :: (a ++ LF :: rest)).
      rewrite has_marker_eq.
      destruct (marker_at (c :: a ++ LF :: rest)) as [r|] eqn:Em.
      * change (c :: a ++ LF :: rest) with ((c :: a) ++ LF :: rest) in Em.
        apply marker_at_LF in Em. destruct Em as [r' [Em _]].
        apply no_marker_head in Ha. congruence.
      * apply IHa; [apply (no_marker_tail c), Ha|exact Hrest].
Qed.

Lemma remove_separators_document_witness :
  exists text warnings,
    fst (extract_text_from_pdf (fun _ => inr hello_world_pdf) [] None empty_world)
    = inr (text, warnings)
    /\ displayed_text false text
       = strip (join [LF] (map strip (page_texts (pages hello_world_pdf))))
    /\ has_marker (displayed_text false text) = false.
Proof.
  apply (remove_separators_document (fun _ => inr hello_world_pdf) [] None
                                    hello_world_pdf empty_world).
  - reflexivity.
  - reflexivity.
  - simpl. lia.
  - repeat constructor.
Defined.

(** C3 as stated fails.  On the two pages "Hello" and "World" the removal
    leaves the two words on two lines, whereas an extraction that puts no
    header gives them run together. *)
Lemma remove_separators_not_headerless :
  exists text warnings,
    fst (extract_text_from_pdf (fun _ => inr hello_world_pdf) [] None empty_world)
    = inr (text, warnings)
    /\ displayed_text false text = lit "Hello" ++ [LF] ++ lit "World"
    /\ text_without_headers hello_world_pdf = lit "HelloWorld"
    /\ displayed_text false text <> text_without_headers hello_world_pdf.
Proof.
  do 2 eexists. split; [vm_compute; reflexivity|].
  repeat split; try (vm_compute; reflexivity).
  vm_compute. discriminate.
Qed.

(** The text without headers is what the page loop gives when its test for
    several pages fails. *)
Lemma text_without_headers_eq (pdf : PDF) :
  text_without_headers pdf = strip (concat (loop_chunks 1 1 (pages pdf))).
Proof.
  unfold text_without_headers. rewrite loop_chunks_no_header; reflexivity.
Qed.

Lemma sub_hit (s r : str) :
  marker_at (lstrip s) = Some r ->
  re_sub separator_pattern [LF] s
  = LF :: re_sub separator_pattern [LF] (lstrip r).
Proof.
  intros H. rewrite re_sub_eq.
  assert (E : match_here separator_pattern s = Some (lstrip r))
    by (rewrite separator_at, H; reflexivity).
  rewrite E. destruct (lt_dec _ _) as [_|n]; [reflexivity|].
  exfalso. apply n. apply separator_consumes. exact E.
Qed.

Lemma sub_miss (c : char) (s : str) :
  marker_at (lstrip (c :: s)) = None ->
  re_sub separator_pattern [LF] (c :: s)
  = c :: re_sub separator_pattern [LF] s.
Proof. intros H. rewrite re_sub_eq, separator_at, H. reflexivity. Qed.

(** A marker read in the output of the substitution, after any text [pre],
    was already there in the input. *)
Lemma sub_keeps_no_marker_at (s : str) :
  forall pre r,
    marker_at (pre ++ re_sub separator_pattern [LF] s) = Some r ->
    exists r', marker_at (pre ++ s) = Some r'.
Proof.
  induction s as [|c s IH]; intros pre r H.
  - rewrite re_sub_eq in H. simpl in H. eauto.
  - destruct (marker_at (lstrip (c :: s))) as [r0|] eqn:E.
    + rewrite (sub_hit _ _ E) in H.
      apply marker_at_LF in H. destruct H as [r' [H _]].
      exists (r' ++ c :: s). apply marker_at_app. exact H.
    + rewrite (sub_miss _ _ E) in H.
      change (pre ++ c :: re_sub separator_pattern [LF] s)
        with (pre ++ [c] ++ re_sub separator_pattern [LF] s) in H.
      rewrite app_assoc in H. apply IH in H. destruct H as [r' H].
      rewrite <- app_assoc in H. exists r'. exact H.
Qed.

(** The substitution leaves no marker behind. *)
Lemma no_marker_after_sub (s : str) :
  has_marker (re_sub separator_pattern [LF] s) = false.
Proof.
  remember (length s) as n eqn:Hn. revert s Hn.
  induction n as [n IH] using lt_wf_ind. intros s Hn.
  destruct (marker_at (lstrip s)) as [r|] eqn:E.
  - rewrite (sub_hit _ _ E), no_marker_space by reflexivity.
    apply (IH (length (lstrip r))); [|reflexivity].
    apply marker_at_length in E.
    pose proof (lstrip_length s). pose proof (lstrip_length r). lia.
  - destruct s as [|c s]; [rewrite re_sub_eq; reflexivity|].
    rewrite (sub_miss _ _ E), has_marker_eq.
    destruct (marker_at (c :: re_sub separator_pattern [LF] s)) as [r|] eqn:Em.
    + apply (sub_keeps_no_marker_at s [c]) in Em. destruct Em as [r' Em].
      simpl in Em. rewrite (marker_at_lstrip _ _ Em) in E. congruence.
    + apply (IH (length s)); [simpl in Hn; lia|reflexivity].
Qed.

Lemma no_marker_after_removal (text : str) :
  has_marker (remove_separators text) = false.
Proof. apply no_marker_strip, no_marker_after_sub. Qed.

(** C7, as amended.  For a document of a single page no header is put into the text:
    the extractor returns the page's own text, stripped (the empty text if
    the page has none), which is the text without headers.  So, whatever the
    toggle, the text shown holds a marker line only if the page's own text
    held one; and with the toggle off it holds none at all. *)
Theorem single_page_no_header
        (pdfplumber_open : bytes -> exn + PDF) (file_bytes : bytes)
        (password : option str) (pdf : PDF) (page : Page) (w : World)
        (show_page_headers : bool) :
  pdfplumber_open file_bytes = inr pdf ->
  granted pdf password = true ->
  pages pdf = [page] ->
  let own := match extract_text page with Some t => t | None => [] end in
  exists warnings,
    fst (extract_text_from_pdf pdfplumber_open file_bytes password w)
    = inr (strip own, warnings)
    /\ strip own = text_without_headers pdf
    /\ (has_marker (displayed_text show_page_headers (strip own)) = true ->
        has_marker own = true)
    /\ has_marker (displayed_text false (strip own)) = false.
Proof.
  intros Hopen Hg Hp own.
  destruct (extract_granted pdfplumber_open file_bytes password _ w Hopen Hg)
    as [entries E].
  exists (document_warnings pdf). rewrite E.
  rewrite (document_text_one_page pdf page Hp). fold own.
  split; [reflexivity|]. split; [|split].
  - unfold text_without_headers. rewrite Hp. unfold page_texts, own. simpl.
    destruct (extract_text page); simpl; rewrite ?app_nil_r; reflexivity.
  - destruct show_page_headers; simpl.
    + intros H. destruct (has_marker own) eqn:Ho; [reflexivity|].
      rewrite (no_marker_strip _ Ho) in H. discriminate.
    + rewrite no_marker_after_removal. discriminate.
  - apply no_marker_after_removal.
Qed.

Lemma single_page_no_header_witness :
  let pdf := mkPDF None (fun _ => 0%Z) [mkPage (Some (lit " Hello "))] in
  exists warnings,
    fst (extract_text_from_pdf (fun _ => inr pdf) [] None empty_world)
    = inr (strip (lit " Hello "), warnings)
    /\ strip (lit " Hello ") = text_without_headers pdf
    /\ (has_marker (displayed_text true (strip (lit " Hello "))) = true ->
        has_marker (lit " Hello ") = true)
    /\ has_marker (displayed_text false (strip (lit " Hello "))) = false.
Proof.
  apply (single_page_no_header
           (fun _ => inr (mkPDF None (fun _ => 0%Z) [mkPage (Some (lit " Hello "))]))
           [] None
           (mkPDF None (fun _ => 0%Z) [mkPage (Some (lit " Hello "))])
           (mkPage (Some (lit " Hello "))) empty_world true);
    reflexivity.
Defined.

(** C7 as stated fails when the page's own text holds a marker line: it is
    in the text that is returned, and shown when the toggle is on. *)
Lemma single_page_marker_from_own_text :
  exists text warnings,
    fst (extract_text_from_pdf (fun _ => inr quoting_pdf) [] None empty_world)
    = inr (text, warnings)
    /\ length (pages quoting_pdf) = 1
    /\ has_marker (displayed_text true text) = true.
Proof.
  do 2 eexists. split; [vm_compute; reflexivity|].
  split; vm_compute; reflexivity.
Qed.

(** ** The run: outputs, downloads and the archive *)

Lemma show_lines_spec (ws : list str) (w : World) :
  show_lines ws w
  = (inr tt,
     mkWorld (log_stream w) (trace w)
             (screen w ++ map (fun x => st_expander_line (lit "- " ++ x)) ws)).
Proof.
  revert w. induction ws as [|x ws IH]; intros w; simpl.
  - unfold ret. rewrite app_nil_r, world_eta. reflexivity.
  - unfold bind, show. rewrite IH. simpl. rewrite <- app_assoc. reflexivity.
Qed.





Section RunFacts.

Variable pdfplumber_open : bytes -> exn + PDF.
Variable password : str.
Variable show_page_headers : bool.



Lemma processed_encodable (ups : list UploadedFile) :
  Forall (fun o : output => encode_utf8 (snd (fst o)) <> None)
         (processed pdfplumber_open password show_page_headers ups).
Proof.
  induction ups as [|up ups IH]; [constructor|].
  unfold processed. cbn [flat_map]. apply Forall_app. split; [|exact IH].
  unfold upload_output.
  destruct (extract_outcome _ _ _) as [e|[text warns]]; [constructor|].
  cbv zeta. destruct (encode_utf8 _) eqn:E; [|constructor].
  constructor; [|constructor]. simpl. congruence.
Qed.

Lemma write_members_spec (outputs : list output) :
  Forall (fun o : output => encode_utf8 (snd (fst o)) <> None) outputs ->
  forall members w,
    write_members outputs members w
    = (inr (members ++ map member_of outputs), w).
Proof.
  induction 1 as [|[[fname text] warns] outputs Ho _ IH]; intros members w.
  - simpl. unfold ret. rewrite app_nil_r. reflexivity.
  - cbn [write_members]. unfold bind, str_encode. simpl in Ho.
    cbn [map member_of].
    destruct (encode_utf8 text) as [data|]; [|congruence].
    unfold ret at 1. rewrite IH, <- app_assoc. reflexivity.
Qed.


End RunFacts.

Lemma rsplit_no_dot (s : str) : ~ In 46%N s -> rsplit_dot_head s = None.
Proof.
  induction s as [|c s IH]; [reflexivity|]. intros H. simpl.
  rewrite IH by (intros H'; apply H; right; exact H').
  destruct (c =? 46)%N eqn:E; [|reflexivity].
  apply N.eqb_eq in E. exfalso. apply H. left. exact E.
Qed.

Lemma rsplit_last_dot (base ext : str) :
  ~ In 46%N ext -> rsplit_dot_head (base ++ 46%N :: ext) = Some base.
Proof.
  intros H. induction base as [|c base IH]; simpl.
  - rewrite (rsplit_no_dot _ H). reflexivity.
  - rewrite IH. reflexivity.
Qed.

(** The name of an output: the part of the source name after its last full
    stop gives way to [txt]; a name without a full stop gets [.txt]
    appended. *)
Lemma to_txt_filename_extension (base ext : str) :
  ~ In 46%N ext -> to_txt_filename (base ++ 46%N :: ext) = base ++ lit ".txt".
Proof.
  intros H. unfold to_txt_filename, rsplit1_first.
  rewrite (rsplit_last_dot _ _ H). reflexivity.
Qed.

Lemma to_txt_filename_no_extension (pdf_name : str) :
  ~ In 46%N pdf_name -> to_txt_filename pdf_name = pdf_name ++ lit ".txt".
Proof.
  intros H. unfold to_txt_filename, rsplit1_first.
  rewrite (rsplit_no_dot _ H). reflexivity.
Qed.



(* ===================================================================== *)
(** * Part III: further properties of the code                            *)
(* ===================================================================== *)

(** ** A run of the extractor in full *)

(** The outcome, the log and the calls of a run of the extractor. *)
Lemma extract_run
      (pdfplumber_open : bytes -> exn + PDF) (file_bytes : bytes)
      (password : option str) (w : World) :
  extract_text_from_pdf pdfplumber_open file_bytes password w
  = (extract_outcome pdfplumber_open file_bytes password,
     mkWorld (log_stream w ++ extract_log pdfplumber_open file_bytes password)
             (trace w ++ extract_calls pdfplumber_open file_bytes password)
             (screen w)).
Proof.
  unfold extract_outcome, extract_log, extract_calls, granted, failure_record,
    denial_message.
  unfold extract_text_from_pdf, try_except, open_pdf, bind, called.
  cbn [log_stream trace screen].
  destruct (pdfplumber_open file_bytes) as [e|pdf] eqn:Hopen.
  - unfold raise, logger_exception, log. cbn [log_stream trace screen].
    reflexivity.
  - unfold ret at 1.
    destruct (getattr_is_encrypted pdf) eqn:Henc.
    + destruct (truthy password) as [p|] eqn:Hp.
      * unfold logger_info, logger_exception, log, pdf_decrypt, bind, called, ret,
          raise.
        cbn [log_stream trace screen].
        destruct (decrypt pdf p =? 0)%Z eqn:Hd; cbn [negb].
        -- cbn [log_stream trace screen app]. rewrite <- !app_assoc.
           reflexivity.
        -- cbn [log_stream trace screen]. rewrite page_loop_spec.
           cbn [log_stream trace screen app].
           unfold document_warnings, document_text.
           destruct (is_empty _); unfold logger_warning, log, ret;
             cbn [log_stream trace screen app];
             rewrite <- ?app_assoc, ?app_nil_r; reflexivity.
      * unfold logger_info, logger_exception, log, bind, raise.
        cbn [log_stream trace screen app]. rewrite <- !app_assoc.
        reflexivity.
    + unfold ret at 1. unfold logger_info, log.
      cbn [log_stream trace screen]. rewrite page_loop_spec.
      cbn [log_stream trace screen app].
      unfold document_warnings, document_text.
      destruct (is_empty _); unfold logger_warning, log, ret;
        cbn [log_stream trace screen app];
        rewrite <- ?app_assoc, ?app_nil_r; reflexivity.
Qed.



(** X2.  When the library cannot open the buffer, the extractor raises the
    library's own exception, unchanged; it has written one record to the
    log, at level ERROR, and has made no other call into the library. *)
Theorem unopened_buffer_propagates
        (pdfplumber_open : bytes -> exn + PDF) (file_bytes : bytes)
        (password : option str) (e : exn) (w : World) :
  pdfplumber_open file_bytes = inl e ->
  extract_text_from_pdf pdfplumber_open file_bytes password w
  = (inl e,
     mkWorld (log_stream w ++ [failure_record])
             (trace w ++ [call_open file_bytes])
             (screen w)).
Proof.
  intros Hopen. rewrite extract_run.
  unfold extract_outcome, extract_log, extract_calls. rewrite Hopen.
  reflexivity.
Qed.

Lemma unopened_buffer_propagates_witness :
  extract_text_from_pdf example_library [x00; x00; x00] None empty_world
  = (inl (OtherError (lit "PDFSyntaxError")),
     mkWorld (log_stream empty_world ++ [failure_record])
             (trace empty_world ++ [call_open [x00; x00; x00]])
             (screen empty_world)).
Proof.
  apply (unopened_buffer_propagates example_library [x00; x00; x00] None
                                    (OtherError (lit "PDFSyntaxError"))
                                    empty_world).
  reflexivity.
Defined.

Lemma page_reads_app (a b : list lib_call) :
  page_reads (a ++ b) = page_reads a ++ page_reads b.
Proof. apply flat_map_app. Qed.

Lemma opened_app (a b : list lib_call) : opened (a ++ b) = opened a ++ opened b.
Proof. apply flat_map_app. Qed.

Lemma page_reads_extract_text (l : list nat) :
  page_reads (map call_extract_text l) = l.
Proof. induction l as [|i l IH]; simpl; [reflexivity|]. rewrite IH. reflexivity. Qed.

Lemma opened_extract_text (l : list nat) : opened (map call_extract_text l) = [].
Proof. induction l as [|i l IH]; simpl; auto. Qed.

Lemma extract_calls_opened
      (pdfplumber_open : bytes -> exn + PDF) (file_bytes : bytes)
      (password : option str) :
  opened (extract_calls pdfplumber_open file_bytes password) = [file_bytes].
Proof.
  unfold extract_calls. cbn [opened flat_map app]. f_equal.
  fold (opened (match pdfplumber_open file_bytes with
                | inl _ => []
                | inr pdf =>
                  (if getattr_is_encrypted pdf
                   then match truthy password with
                        | Some p => [call_decrypt p]
                        | None => []
                        end
                   else [])
                    ++ (if granted pdf password
                        then map call_extract_text (seq 1 (length (pages pdf)))
                        else [])
                end)).
  destruct (pdfplumber_open file_bytes) as [e|pdf]; [reflexivity|].
  rewrite opened_app.
  destruct (granted pdf password); rewrite ?opened_extract_text;
    destruct (getattr_is_encrypted pdf); try reflexivity;
    destruct (truthy password); reflexivity.
Qed.

(** X3.  The extractor passes once over the document: it opens the buffer
    once and, when the document lets it in, asks each page for its text
    exactly once, from page 1 to the last in order; when access is refused
    it asks no page. *)
Theorem pages_read_once_in_order
        (pdfplumber_open : bytes -> exn + PDF) (file_bytes : bytes)
        (password : option str) (pdf : PDF) (w : World) :
  pdfplumber_open file_bytes = inr pdf ->
  exists calls,
    trace (snd (extract_text_from_pdf pdfplumber_open file_bytes password w))
    = trace w ++ calls
    /\ opened calls = [file_bytes]
    /\ page_reads calls
       = if granted pdf password then seq 1 (length (pages pdf)) else [].
Proof.
  intros Hopen. rewrite extract_run. cbn [snd trace].
  exists (extract_calls pdfplumber_open file_bytes password).
  split; [reflexivity|]. split; [apply extract_calls_opened|].
  unfold extract_calls. rewrite Hopen.
  cbn [page_reads flat_map app].
  fold (page_reads
          ((if getattr_is_encrypted pdf
            then match truthy password with
                 | Some p => [call_decrypt p]
                 | None => []
                 end
            else [])
             ++ (if granted pdf password
                 then map call_extract_text (seq 1 (length (pages pdf)))
                 else []))).
  rewrite page_reads_app.
  assert (Hd : page_reads (if getattr_is_encrypted pdf
                           then match truthy password with
                                | Some p => [call_decrypt p]
                                | None => []
                                end
                           else []) = []).
  { destruct (getattr_is_encrypted pdf); [|reflexivity].
    destruct (truthy password); reflexivity. }
  rewrite Hd. destruct (granted pdf password); [|reflexivity].
  apply page_reads_extract_text.
Qed.

Lemma pages_read_once_in_order_witness :
  exists calls,
    trace (snd (extract_text_from_pdf example_library [x00] (Some (lit "secret"))
                                      empty_world))
    = trace empty_world ++ calls
    /\ opened calls = [[x00]]
    /\ page_reads calls
       = if granted locked_pdf (Some (lit "secret"))
         then seq 1 (length (pages locked_pdf)) else [].
Proof.
  apply (pages_read_once_in_order example_library [x00] (Some (lit "secret"))
                                  locked_pdf empty_world).
  reflexivity.
Defined.

Lemma loop_log_no_error (ps : list Page) :
  forall i, existsb is_error (levels (loop_log i ps)) = false.
Proof.
  induction ps as [|p ps IH]; intros i; [reflexivity|].
  cbn [loop_log]. destruct (extract_text p); [apply IH|].
  cbn [levels map fst existsb is_error orb]. apply IH.
Qed.

Lemma levels_app (a b : list (level * str)) : levels (a ++ b) = levels a ++ levels b.
Proof. apply map_app. Qed.

(** X4.  The extractor writes a record at level ERROR exactly when it
    raises; the record is then the last one it writes, and the only one at
    that level. *)
Theorem error_logged_iff_raised
        (pdfplumber_open : bytes -> exn + PDF) (file_bytes : bytes)
        (password : option str) (w : World) :
  let outcome := extract_text_from_pdf pdfplumber_open file_bytes password w in
  exists entries,
    log_stream (snd outcome) = log_stream w ++ entries
    /\ (existsb is_error (levels entries) = true <-> exists e, fst outcome = inl e)
    /\ ((exists e, fst outcome = inl e) ->
        exists before, entries = before ++ [failure_record]
                       /\ existsb is_error (levels before) = false).
Proof.
  intros outcome. subst outcome. rewrite extract_run. cbn [fst snd log_stream].
  exists (extract_log pdfplumber_open file_bytes password).
  split; [reflexivity|].
  unfold extract_log, extract_outcome.
  destruct (pdfplumber_open file_bytes) as [e|pdf].
  - split; [split; [eauto|reflexivity]|].
    intros _. exists []. split; reflexivity.
  - destruct (granted pdf password).
    + assert (Hok : existsb is_error
                      (levels
                         ((if getattr_is_encrypted pdf
                           then [(INFO, lit "El PDF está cifrado.");
                                 (INFO, lit "Desencriptado con la contraseña proporcionada.")]
                           else [])
                            ++ (INFO, lit "Páginas detectadas: "
                                          ++ str_of_nat (length (pages pdf)))
                            :: loop_log 1 (pages pdf)
                            ++ (if is_empty (document_text pdf)
                                then [(WARNING,
                                       lit "Extracción vacía; considerar aplicar OCR externo si el PDF es imagen.")]
                                else [])))
                    = false).
      { rewrite levels_app, existsb_app.
        replace (existsb is_error
                         (levels (if getattr_is_encrypted pdf
                                  then [(INFO, lit "El PDF está cifrado.");
                                        (INFO, lit "Desencriptado con la contraseña proporcionada.")]
                                  else [])))
          with false by (destruct (getattr_is_encrypted pdf); reflexivity).
        cbn [levels map fst existsb is_error orb].
        fold (levels (loop_log 1 (pages pdf)
                               ++ (if is_empty (document_text pdf)
                                   then [(WARNING,
                                          lit "Extracción vacía; considerar aplicar OCR externo si el PDF es imagen.")]
                                   else []))).
        rewrite levels_app, existsb_app, loop_log_no_error.
        destruct (is_empty (document_text pdf)); reflexivity. }
      cbv beta iota. rewrite Hok.
      split; [split; [discriminate|intros [e He]; discriminate]|].
      intros [e He]; discriminate.
    + split; [split; [eauto|]|].
      * intros _. rewrite levels_app, existsb_app.
        cbn [levels map fst existsb is_error failure_record orb].
        apply orb_true_r.
      * intros _.
        exists (if getattr_is_encrypted pdf
                then [(INFO, lit "El PDF está cifrado.")] else []).
        split; [destruct (getattr_is_encrypted pdf); reflexivity|].
        destruct (getattr_is_encrypted pdf); reflexivity.
Qed.

Lemma lstrip_head (s : str) (c : char) (rest : str) :
  lstrip s = c :: rest -> Py_UNICODE_ISSPACE c = false.
Proof.
  induction s as [|x s IH]; simpl; [discriminate|].
  destruct (Py_UNICODE_ISSPACE x) eqn:Hx; [exact IH|].
  intros H; inversion H; subst. exact Hx.
Qed.

Lemma rstrip_last (s init : str) (c : char) :
  rstrip s = init ++ [c] -> Py_UNICODE_ISSPACE c = false.
Proof.
  revert init. induction s as [|x s IH]; intros init; simpl.
  - destruct init; discriminate.
  - destruct (rstrip s) as [|y r] eqn:R.
    + destruct (Py_UNICODE_ISSPACE x) eqn:Hx.
      * destruct init; discriminate.
      * destruct init as [|a [|b init]]; simpl; try discriminate.
        intros H; inversion H; subst. exact Hx.
    + destruct init as [|a init]; simpl.
      * intros H; inversion H.
      * intros H; inversion H; subst. apply (IH init). assumption.
Qed.

Lemma lstrip_idempotent (s : str) : lstrip (lstrip s) = lstrip s.
Proof.
  destruct (lstrip s) as [|c r] eqn:E; [reflexivity|].
  apply lstrip_not_blank. apply (lstrip_head s c r E).
Qed.

Lemma rstrip_idempotent (s : str) : rstrip (rstrip s) = rstrip s.
Proof.
  induction s as [|c s IH]; [reflexivity|].
  destruct (blank (c :: s)) eqn:B.
  - rewrite (rstrip_blank _ B). reflexivity.
  - rewrite (rstrip_cons _ _ B).
    assert (B' : blank (c :: rstrip s) = false).
    { simpl in *. destruct (Py_UNICODE_ISSPACE c); [|reflexivity].
      simpl in *. destruct (blank (rstrip s)) eqn:Br; [|reflexivity].
      apply rstrip_blank in Br. rewrite IH in Br.
      apply rstrip_nil_blank in Br. congruence. }
    rewrite (rstrip_cons _ _ B'), IH. reflexivity.
Qed.

Lemma strip_idempotent (s : str) : strip (strip s) = strip s.
Proof.
  unfold strip at 1. rewrite <- (lstrip_rstrip s), lstrip_idempotent.
  rewrite lstrip_rstrip. unfold strip. apply rstrip_idempotent.
Qed.

Lemma strip_head (s : str) (c : char) (rest : str) :
  strip s = c :: rest -> Py_UNICODE_ISSPACE c = false.
Proof.
  rewrite <- lstrip_rstrip. apply lstrip_head.
Qed.

Lemma extracted_text_stripped_aux
      (pdfplumber_open : bytes -> exn + PDF) (file_bytes : bytes)
      (password : option str) (w : World) (text : str) (warnings : list str) :
  fst (extract_text_from_pdf pdfplumber_open file_bytes password w)
  = inr (text, warnings) ->
  strip text = text.
Proof.
  rewrite extract_run. cbn [fst]. unfold extract_outcome.
  destruct (pdfplumber_open file_bytes) as [e|pdf]; [discriminate|].
  destruct (granted pdf password); [|discriminate].
  intros H; inversion H; subst. apply strip_idempotent.
Qed.

(** X5.  The text the extractor returns is stripped: stripping it again
    changes nothing, and it neither starts nor ends with a white-space
    character. *)
Theorem extracted_text_is_stripped
        (pdfplumber_open : bytes -> exn + PDF) (file_bytes : bytes)
        (password : option str) (w : World) (text : str) (warnings : list str) :
  fst (extract_text_from_pdf pdfplumber_open file_bytes password w)
  = inr (text, warnings) ->
  strip text = text
  /\ (forall c rest, text = c :: rest -> Py_UNICODE_ISSPACE c = false)
  /\ (forall init c, text = init ++ [c] -> Py_UNICODE_ISSPACE c = false).
Proof.
  rewrite extract_run. cbn [fst]. unfold extract_outcome.
  destruct (pdfplumber_open file_bytes) as [e|pdf]; [discriminate|].
  destruct (granted pdf password); [|discriminate].
  intros H; inversion H; subst. unfold document_text.
  split; [apply strip_idempotent|]. split.
  - intros c rest. apply strip_head.
  - intros init c. unfold strip. apply rstrip_last.
Qed.

Lemma extracted_text_is_stripped_witness :
  let text := lit "--- Página 1 ---" ++ [LF; LF] ++ lit "Hello" in
  strip text = text
  /\ (forall c rest, text = c :: rest -> Py_UNICODE_ISSPACE c = false)
  /\ (forall init c, text = init ++ [c] -> Py_UNICODE_ISSPACE c = false).
Proof.
  apply (extracted_text_is_stripped example_library [x00] (Some (lit "secret"))
                                    empty_world _
                                    [page_warning 2]).
  reflexivity.
Defined.

Lemma error_logged_iff_raised_witness :
  let outcome :=
      extract_text_from_pdf example_library [x00] (Some (lit "guess")) empty_world in
  exists entries,
    log_stream (snd outcome) = log_stream empty_world ++ entries
    /\ (existsb is_error (levels entries) = true <-> exists e, fst outcome = inl e)
    /\ ((exists e, fst outcome = inl e) ->
        exists before, entries = before ++ [failure_record]
                       /\ existsb is_error (levels before) = false).
Proof.
  exact (error_logged_iff_raised example_library [x00] (Some (lit "guess"))
                                 empty_world).
Defined.

Lemma loop_warnings_nil_iff (ps : list Page) :
  forall i, loop_warnings i ps = []
            <-> Forall (fun p => extract_text p <> None) ps.
Proof.
  induction ps as [|p ps IH]; intros i; simpl.
  - split; [constructor|reflexivity].
  - destruct (extract_text p) as [t|] eqn:E.
    + rewrite IH. split.
      * intros H. constructor; [congruence|exact H].
      * intros H. inversion H; assumption.
    + split; [discriminate|].
      intros H. inversion H; congruence.
Qed.

(** X6.  A successful extraction returns no warning at all exactly when
    every page gave a text and the text of the document is not empty. *)
Theorem no_warning_iff
        (pdfplumber_open : bytes -> exn + PDF) (file_bytes : bytes)
        (password : option str) (pdf : PDF) (w : World)
        (text : str) (warnings : list str) :
  pdfplumber_open file_bytes = inr pdf ->
  fst (extract_text_from_pdf pdfplumber_open file_bytes password w)
  = inr (text, warnings) ->
  (warnings = []
   <-> Forall (fun p => extract_text p <> None) (pages pdf) /\ text <> []).
Proof.
  intros Hopen. rewrite extract_run. cbn [fst]. unfold extract_outcome.
  rewrite Hopen. destruct (granted pdf password); [|discriminate].
  intros H; inversion H; subst. unfold document_warnings.
  rewrite <- (loop_warnings_nil_iff (pages pdf) 1).
  destruct (document_text pdf) as [|c r]; cbn [is_empty].
  - split.
    + intros E. apply app_eq_nil in E. destruct E as [_ E]. discriminate.
    + intros [_ E]. congruence.
  - rewrite app_nil_r. split; [intros E; split; [exact E|discriminate]|].
    intros [E _]; exact E.
Qed.

Lemma no_warning_iff_witness :
  [page_warning 2] = []
  <-> Forall (fun p => extract_text p <> None) (pages locked_pdf)
      /\ lit "--- Página 1 ---" ++ [LF; LF] ++ lit "Hello" <> [].
Proof.
  apply (no_warning_iff example_library [x00] (Some (lit "secret")) locked_pdf
                        empty_world); reflexivity.
Defined.

Lemma loop_warnings_numbered (ps : list Page) :
  forall i,
    loop_warnings i ps
    = map page_warning
          (map fst (filter (fun ip => match extract_text (snd ip) with
                                      | None => true
                                      | Some _ => false
                                      end)
                           (combine (seq i (length ps)) ps))).
Proof.
  induction ps as [|p ps IH]; intros i; [reflexivity|].
  cbn [loop_warnings length seq combine filter snd].
  destruct (extract_text p); cbn [map fst]; rewrite IH; reflexivity.
Qed.

(** X7.  The warnings of a successful extraction name, in page order, the
    numbers of exactly the pages that gave no text; the warning for an
    empty extraction follows them when, and only when, the text is
    empty. *)
Theorem warnings_name_pages_without_text
        (pdfplumber_open : bytes -> exn + PDF) (file_bytes : bytes)
        (password : option str) (pdf : PDF) (w : World)
        (text : str) (warnings : list str) :
  pdfplumber_open file_bytes = inr pdf ->
  fst (extract_text_from_pdf pdfplumber_open file_bytes password w)
  = inr (text, warnings) ->
  warnings
  = map page_warning (pages_without_text (pages pdf))
        ++ (if is_empty text then [empty_warning] else []).
Proof.
  intros Hopen. rewrite extract_run. cbn [fst]. unfold extract_outcome.
  rewrite Hopen. destruct (granted pdf password); [|discriminate].
  intros H; inversion H; subst. unfold document_warnings, pages_without_text.
  rewrite loop_warnings_numbered. reflexivity.
Qed.

Lemma warnings_name_pages_without_text_witness :
  [page_warning 2]
  = map page_warning (pages_without_text (pages locked_pdf))
        ++ (if is_empty (lit "--- Página 1 ---" ++ [LF; LF] ++ lit "Hello")
            then [empty_warning] else []).
Proof.
  apply (warnings_name_pages_without_text
           example_library [x00] (Some (lit "secret")) locked_pdf empty_world);
    reflexivity.
Defined.

Lemma loop_chunks_numbered (n : nat) (ps : list Page) :
  forall i,
    loop_chunks n i ps
    = map (fun it => (if 1 <? n then page_header (fst it) else []) ++ snd it)
          (flat_map (fun ip => match extract_text (snd ip) with
                               | Some t => [(fst ip, t)]
                               | None => []
                               end)
                    (combine (seq i (length ps)) ps)).
Proof.
  induction ps as [|p ps IH]; intros i; [reflexivity|].
  cbn [loop_chunks length seq combine flat_map snd fst].
  destruct (extract_text p); cbn [app map fst snd]; rewrite IH; reflexivity.
Qed.

(** X8.  In the text of a document of two pages or more, the header of a
    page carries the position of that page in the document: the pages
    without text get no header, and the pages after them keep their own
    numbers.  A document of at most one page gets no header. *)
Theorem headers_carry_page_numbers
        (pdfplumber_open : bytes -> exn + PDF) (file_bytes : bytes)
        (password : option str) (pdf : PDF) (w : World)
        (text : str) (warnings : list str) :
  pdfplumber_open file_bytes = inr pdf ->
  fst (extract_text_from_pdf pdfplumber_open file_bytes password w)
  = inr (text, warnings) ->
  text
  = strip (concat (map (fun it => (if 2 <=? length (pages pdf)
                                   then page_header (fst it) else [])
                                  ++ snd it)
                       (numbered_texts (pages pdf)))).
Proof.
  intros Hopen. rewrite extract_run. cbn [fst]. unfold extract_outcome.
  rewrite Hopen. destruct (granted pdf password); [|discriminate].
  intros H; inversion H; subst. unfold document_text, numbered_texts.
  rewrite loop_chunks_numbered. reflexivity.
Qed.

Lemma headers_carry_page_numbers_witness :
  let pdf := mkPDF None (fun _ => 0%Z)
                   [mkPage None; mkPage (Some (lit "b")); mkPage None;
                    mkPage (Some (lit "d"))] in
  lit "--- Página 2 ---" ++ [LF; LF] ++ lit "b" ++ [LF; LF]
      ++ lit "--- Página 4 ---" ++ [LF; LF] ++ lit "d"
  = strip (concat (map (fun it => (if 2 <=? length (pages pdf)
                                   then page_header (fst it) else [])
                                  ++ snd it)
                       (numbered_texts (pages pdf)))).
Proof.
  apply (headers_carry_page_numbers
           (fun _ => inr (mkPDF None (fun _ => 0%Z)
                                [mkPage None; mkPage (Some (lit "b")); mkPage None;
                                 mkPage (Some (lit "d"))]))
           [] None
           (mkPDF None (fun _ => 0%Z)
                  [mkPage None; mkPage (Some (lit "b")); mkPage None;
                   mkPage (Some (lit "d"))])
           empty_world _ [page_warning 1; page_warning 3]); reflexivity.
Defined.

(** ** A run in full *)

Section RunInFull.

Variable pdfplumber_open : bytes -> exn + PDF.
Variable password : str.
Variable show_page_headers : bool.

Lemma process_upload_in_full (up : UploadedFile) (outputs : list output) (w : World) :
  exists entries,
    process_upload pdfplumber_open password show_page_headers up outputs w
    = (inr (outputs
              ++ olist (upload_output pdfplumber_open password show_page_headers up)),
       mkWorld (log_stream w ++ entries)
               (trace w ++ extract_calls pdfplumber_open (read up)
                                         (truthy (Some password)))
               (screen w
                  ++ upload_widgets pdfplumber_open password show_page_headers up)).
Proof.
  assert (Hnil : outputs ++ [] = outputs) by apply app_nil_r.
  unfold process_upload, try_except, upload_output, upload_widgets.
  unfold bind at 1. rewrite extract_run.
  destruct (extract_outcome pdfplumber_open (read up) (truthy (Some password)))
    as [e|[text warns]].
  - destruct e as [msg|cls]; unfold bind, show, logger_error, logger_exception,
                              log, ret; cbn [log_stream trace screen olist];
      rewrite Hnil, <- ?app_assoc; eexists; reflexivity.
  - cbv zeta. unfold bind at 1. unfold show at 1. cbn [log_stream trace screen].
    unfold bind at 1. unfold str_encode.
    destruct (encode_utf8 (displayed_text show_page_headers text)) as [data|] eqn:Hd.
    + unfold ret at 1. unfold bind at 1. unfold show at 1.
      cbn [log_stream trace screen].
      unfold bind at 1. rewrite show_lines_spec. cbn [log_stream trace screen].
      unfold bind, logger_info, log, ret. cbn [log_stream trace screen olist].
      rewrite <- !app_assoc. eexists. reflexivity.
    + unfold raise, bind, show, logger_error, log, ret.
      cbn [log_stream trace screen olist].
      rewrite Hnil, <- !app_assoc. eexists. reflexivity.
Qed.

Lemma process_all_in_full (ups : list UploadedFile) :
  forall (outputs : list output) (w : World),
  exists entries,
    process_all pdfplumber_open password show_page_headers ups outputs w
    = (inr (outputs ++ processed pdfplumber_open password show_page_headers ups),
       mkWorld (log_stream w ++ entries)
               (trace w ++ run_calls pdfplumber_open password ups)
               (screen w
                  ++ flat_map (upload_widgets pdfplumber_open password
                                              show_page_headers) ups)).
Proof.
  induction ups as [|up ups IH]; intros outputs w.
  - exists []. simpl. unfold ret. rewrite !app_nil_r, world_eta. reflexivity.
  - cbn [process_all]. unfold bind.
    destruct (process_upload_in_full up outputs w) as [e1 E1]. rewrite E1.
    destruct (IH (outputs ++ olist (upload_output pdfplumber_open password
                                                  show_page_headers up))
                 (mkWorld (log_stream w ++ e1)
                          (trace w ++ extract_calls pdfplumber_open (read up)
                                                    (truthy (Some password)))
                          (screen w ++ upload_widgets pdfplumber_open password
                                                      show_page_headers up)))
      as [e2 E2].
    rewrite E2. cbn [log_stream trace screen].
    exists (e1 ++ e2).
    unfold processed, run_calls. cbn [flat_map]. rewrite <- !app_assoc.
    reflexivity.
Qed.

(** The outcome of a run, the calls it makes and what it shows. *)
Lemma run_in_full (uploaded_files : list UploadedFile) (w : World) :
  exists entries,
    run pdfplumber_open password show_page_headers uploaded_files w
    = (inr tt,
       mkWorld (log_stream w ++ entries)
               (trace w ++ run_calls pdfplumber_open password uploaded_files)
               (screen w ++ run_widgets pdfplumber_open password show_page_headers
                                        uploaded_files)).
Proof.
  destruct uploaded_files as [|up ups].
  - exists []. unfold run, show, run_widgets, run_calls. simpl.
    rewrite !app_nil_r. reflexivity.
  - remember (up :: ups) as files eqn:Hf.
    assert (Hrun :
              run pdfplumber_open password show_page_headers files w
              = (outputs <- process_all pdfplumber_open password show_page_headers
                                        files [] ;;
                 if 1 <? length outputs then
                   members <- write_members outputs [] ;;
                   show (st_download_button (lit "⬇️ Descargar todos como ZIP")
                                            (ZipFile members)
                                            (lit "txt_convertidos.zip")
                                            (lit "application/zip"))
                 else ret tt) w)
      by (subst files; reflexivity).
    assert (Hw :
              run_widgets pdfplumber_open password show_page_headers files
              = flat_map (upload_widgets pdfplumber_open password show_page_headers)
                         files
                  ++ (if 1 <? length (processed pdfplumber_open password
                                                show_page_headers files)
                      then [st_download_button
                              (lit "⬇️ Descargar todos como ZIP")
                              (ZipFile (map member_of
                                            (processed pdfplumber_open password
                                                       show_page_headers files)))
                              (lit "txt_convertidos.zip") (lit "application/zip")]
                      else []))
      by (subst files; reflexivity).
    rewrite Hrun, Hw. clear Hrun Hw Hf.
    unfold bind at 1.
    destruct (process_all_in_full files [] w) as [entries E]. rewrite E.
    cbn [app]. exists entries.
    destruct (1 <? length (processed pdfplumber_open password show_page_headers
                                     files)).
    + unfold bind. rewrite write_members_spec by apply processed_encodable.
      unfold show. cbn [log_stream trace screen app].
      rewrite <- app_assoc. reflexivity.
    + unfold ret. rewrite app_nil_r. reflexivity.
Qed.

End RunInFull.

(** ** Properties of a run *)










(** X13.  A buffer on which the library raises anything but a [ValueError]
    is reported under its name with the same fixed message, whatever the
    exception was: nothing of the exception reaches the screen.  The
    document adds nothing to the outputs. *)
Theorem unreadable_document_message
        (pdfplumber_open : bytes -> exn + PDF) (password : str)
        (show_page_headers : bool) (up : UploadedFile) (cls : str)
        (outputs : list output) (w : World) :
  pdfplumber_open (read up) = inl (OtherError cls) ->
  let outcome :=
      process_upload pdfplumber_open password show_page_headers up outputs w in
  fst outcome = inr outputs
  /\ screen (snd outcome)
     = screen w ++ [st_error (name up ++ lit ": Error al procesar. Revisa logs.")].
Proof.
  intros Hopen outcome. subst outcome.
  destruct (process_upload_in_full pdfplumber_open password show_page_headers
                                   up outputs w) as [entries E].
  rewrite E. cbn [fst snd screen].
  unfold upload_output, upload_widgets, extract_outcome.
  rewrite Hopen. cbn [olist]. rewrite app_nil_r.
  split; reflexivity.
Qed.

Lemma unreadable_document_message_witness :
  let up := mkUpload (lit "a.pdf") [x00; x00; x00] in
  let outcome := process_upload example_library [] true up [] empty_world in
  fst outcome = inr []
  /\ screen (snd outcome)
     = screen empty_world
         ++ [st_error (name up ++ lit ": Error al procesar. Revisa logs.")].
Proof.
  apply (unreadable_document_message
           example_library [] true (mkUpload (lit "a.pdf") [x00; x00; x00])
           (lit "PDFSyntaxError") [] empty_world); reflexivity.
Defined.



(** ** Properties of the separator removal and of the output names *)

Lemma text_areas_app (a b : list widget) :
  text_areas (a ++ b) = text_areas a ++ text_areas b.
Proof. apply flat_map_app. Qed.

Lemma text_areas_lines (ws : list str) :
  text_areas (map (fun x => st_expander_line (lit "- " ++ x)) ws) = [].
Proof. induction ws; simpl; auto. Qed.

(** X16.  With the toggle off, no text shown by a run holds a marker line
    [--- Página <n> ---] any more, whatever the documents contain. *)
Theorem no_marker_shown_when_toggle_off
        (pdfplumber_open : bytes -> exn + PDF) (password : str)
        (uploaded_files : list UploadedFile) (w : World) :
  exists shown,
    screen (snd (run pdfplumber_open password false uploaded_files w))
    = screen w ++ shown
    /\ Forall (fun value => has_marker value = false) (text_areas shown).
Proof.
  destruct (run_in_full pdfplumber_open password false uploaded_files w)
    as [entries E].
  rewrite E. cbn [snd screen]. eexists. split; [reflexivity|]. clear E.
  destruct uploaded_files as [|up0 ups0]; [constructor|].
  unfold run_widgets. rewrite text_areas_app.
  apply Forall_app. split.
  - generalize (up0 :: ups0) as ups. clear.
    induction ups as [|up ups IH]; [constructor|].
    cbn [flat_map]. rewrite text_areas_app. apply Forall_app.
    split; [|exact IH].
    unfold upload_widgets.
    destruct (extract_outcome _ _ _) as [[msg|cls]|[text warns]];
      try constructor.
    + cbv zeta. unfold displayed_text. apply no_marker_after_removal.
    + cbv zeta. destruct (encode_utf8 _); cbn [text_areas flat_map app].
      * fold (text_areas (map (fun x => st_expander_line (lit "- " ++ x)) warns)).
        rewrite text_areas_lines. constructor.
      * constructor.
  - destruct (1 <? _); constructor.
Qed.

Lemma re_sub_no_marker (t : str) :
  has_marker t = false -> re_sub separator_pattern [LF] t = t.
Proof.
  intros H. rewrite re_sub_join, (split_no_marker t H). reflexivity.
Qed.

(** X17.  On a text the extractor returned that holds no marker line (the
    text of a single page without one, for instance) the toggle changes
    nothing: the text shown with the toggle off is the text itself. *)
Theorem toggle_without_effect
        (pdfplumber_open : bytes -> exn + PDF) (file_bytes : bytes)
        (password : option str) (w : World) (text : str) (warnings : list str) :
  fst (extract_text_from_pdf pdfplumber_open file_bytes password w)
  = inr (text, warnings) ->
  has_marker text = false ->
  displayed_text false text = displayed_text true text.
Proof.
  intros Hrun Hclean.
  pose proof (extracted_text_stripped_aux pdfplumber_open file_bytes password w
                                          text warnings Hrun) as Hs.
  unfold displayed_text, remove_separators.
  rewrite (re_sub_no_marker text Hclean). exact Hs.
Qed.

Lemma toggle_without_effect_witness :
  displayed_text false (strip (lit " Hello "))
  = displayed_text true (strip (lit " Hello ")).
Proof.
  apply (toggle_without_effect
           (fun _ => inr (mkPDF None (fun _ => 0%Z) [mkPage (Some (lit " Hello "))]))
           [] None empty_world (strip (lit " Hello ")) []); reflexivity.
Defined.

(** X18.  Removing the separators twice is removing them once. *)
Theorem remove_separators_idempotent (text : str) :
  remove_separators (remove_separators text) = remove_separators text.
Proof.
  unfold remove_separators at 1.
  rewrite (re_sub_no_marker _ (no_marker_after_removal text)).
  unfold remove_separators. apply strip_idempotent.
Qed.

(** X19.  Naming is idempotent: the name of an output, taken as a source
    name, gives itself. *)
Theorem to_txt_filename_idempotent (pdf_name : str) :
  to_txt_filename (to_txt_filename pdf_name) = to_txt_filename pdf_name.
Proof.
  unfold to_txt_filename at 2 3.
  change (lit ".txt") with (46%N :: lit "txt").
  apply to_txt_filename_extension.
  intros H. repeat (destruct H as [H|H]; [discriminate|]). exact H.
Qed.




